(** * A shallow embedding of [pvr/installer.py] (dstufft/pvr)

    The installer locates the latest wheel of pip on a simple index page
    ([PipInstaller.find]), caches it under a hash of its URL
    ([PipInstaller.download]) and runs the environment's interpreter on it
    ([PipInstaller.install]).  Python text is modelled as [string] whose
    characters are the code points [0..255]; bytes as [list Z]. *)

From Stdlib Require Import ZArith Lia Ascii String List Bool.
From stdpp Require Import base gmap sets strings list.
Import ListNotations.
Open Scope Z_scope.

(* ------------------------------------------------------------------ *)
(** ** Python text helpers (str methods, posixpath, urllib.parse)     *)
(* ------------------------------------------------------------------ *)

Module Py.

Definition chars (s : string) : list ascii := list_ascii_of_string s.
Definition str (l : list ascii) : string := string_of_list_ascii l.

Definition code (c : ascii) : Z := Z.of_nat (nat_of_ascii c).

Definition is_digit (c : ascii) : bool := (48 <=? code c) && (code c <=? 57).
Definition is_lower (c : ascii) : bool := (97 <=? code c) && (code c <=? 122).
Definition is_upper (c : ascii) : bool := (65 <=? code c) && (code c <=? 90).
Definition is_alpha (c : ascii) : bool := is_lower c || is_upper c.

(** [str.isspace] restricted to code points below 256. *)
Definition is_space (c : ascii) : bool :=
  let n := code c in
  ((9 <=? n) && (n <=? 13)) || ((28 <=? n) && (n <=? 32)) || (n =? 133) || (n =? 160).

Definition lower_char (c : ascii) : ascii :=
  if is_upper c then ascii_of_nat (Z.to_nat (code c + 32)) else c.

Fixpoint lprefix (p s : list ascii) : bool :=
  match p, s with
  | [], _ => true
  | x :: p', y :: s' => Ascii.eqb x y && lprefix p' s'
  | _ :: _, [] => false
  end.

(** [s.startswith(p)] and [s.endswith(p)]. *)
Definition startswith (s p : string) : bool := lprefix (chars p) (chars s).
Definition endswith (s p : string) : bool := lprefix (rev (chars p)) (rev (chars s)).

(** [s.split(c)] for a one-character separator. *)
Fixpoint split_on (c : ascii) (s : list ascii) : list (list ascii) :=
  match s with
  | [] => [[]]
  | x :: r =>
      let parts := split_on c r in
      if Ascii.eqb x c then [] :: parts
      else match parts with
           | p :: ps => (x :: p) :: ps
           | [] => [[x]]
           end
  end.

Definition split (s : string) (c : ascii) : list string := map str (split_on c (chars s)).

(** [c in s] *)
Definition contains (s : string) (c : ascii) : bool := existsb (Ascii.eqb c) (chars s).

Fixpoint take_while (f : ascii -> bool) (l : list ascii) : list ascii :=
  match l with [] => [] | x :: r => if f x then x :: take_while f r else [] end.
Fixpoint drop_while (f : ascii -> bool) (l : list ascii) : list ascii :=
  match l with [] => [] | x :: r => if f x then drop_while f r else l end.

(** [s.strip()] *)
Definition strip (l : list ascii) : list ascii :=
  rev (drop_while is_space (rev (drop_while is_space l))).

Definition slash : ascii := "/"%char.

(** [posixpath.basename]: the text after the last ['/']. *)
Definition basename (p : string) : string :=
  str (rev (take_while (fun c => negb (Ascii.eqb c slash)) (rev (chars p)))).

(** [posixpath.dirname]: [head = p[:p.rfind('/')+1]], then trailing
    slashes are removed unless [head] is made of slashes only. *)
Definition dirname (p : string) : string :=
  let head := rev (drop_while (fun c => negb (Ascii.eqb c slash)) (rev (chars p))) in
  if forallb (Ascii.eqb slash) head then str head
  else str (rev (drop_while (Ascii.eqb slash) (rev head))).

(** [posixpath.join(a, b)] for one component. *)
Definition join2 (a b : string) : string :=
  if startswith b "/" then b
  else if String.eqb a "" || endswith a "/" then (a ++ b)%string
  else (a ++ "/" ++ b)%string.

(** [posixpath.join(a, b, c)] joins from the left. *)
Definition join3 (a b c : string) : string := join2 (join2 a b) c.

(** [urllib.parse.urlparse(url).path]: scheme, then [//netloc], then
    [#fragment] and [?query] are split off (urlsplit), and for the schemes
    in [uses_params] a [;params] suffix of the last segment.  The
    removal of control characters is not modelled, nor the netloc
    validation ([invalid_ipv6] below): [find] applies [url_path] only to
    results of [urljoin], whose netloc has already passed it. *)
Definition scheme_char (c : ascii) : bool :=
  is_alpha c || is_digit c || existsb (Ascii.eqb c) (chars "+-.").

Definition uses_params : list string :=
  [""; "ftp"; "hdl"; "prospero"; "http"; "imap"; "https"; "shttp"; "rtsp";
   "rtspu"; "sip"; "sips"; "mms"; "sftp"; "tel"].

Fixpoint find_char (c : ascii) (l : list ascii) : option nat :=
  match l with
  | [] => None
  | x :: r => if Ascii.eqb x c then Some 0%nat else option_map S (find_char c r)
  end.

(** [(url[:i], url[i+1:])] at the first [c], if any. *)
Definition split_first (c : ascii) (l : list ascii) : list ascii * list ascii :=
  match find_char c l with
  | Some i => (firstn i l, skipn (S i) l)
  | None => (l, [])
  end.

Definition split_scheme (l : list ascii) : list ascii * list ascii :=
  match find_char ":"%char l with
  | Some i =>
      let sch := firstn i l in
      match sch with
      | c0 :: _ =>
          if is_alpha c0 && forallb scheme_char sch
          then (map lower_char sch, skipn (S i) l) else ([], l)
      | [] => ([], l)
      end
  | None => ([], l)
  end.

Definition split_netloc (l : list ascii) : list ascii :=
  match l with
  | "/"%char :: "/"%char :: r =>
      drop_while (fun c => negb (existsb (Ascii.eqb c) (chars "/?#"))) r
  | _ => l
  end.

Definition split_params (l : list ascii) : list ascii :=
  if existsb (Ascii.eqb ";"%char) l then
    if existsb (Ascii.eqb slash) l then
      (* url.find(';', url.rfind('/')) *)
      let last_seg := take_while (fun c => negb (Ascii.eqb c slash)) (rev l) in
      let before := drop_while (fun c => negb (Ascii.eqb c slash)) (rev l) in
      match find_char ";"%char (rev last_seg) with
      | Some i => rev before ++ firstn i (rev last_seg)
      | None => l
      end
    else fst (split_first ";"%char l)
  else l.

Definition url_path (url : string) : string :=
  let '(sch, rest) := split_scheme (chars url) in
  let rest := split_netloc rest in
  let rest := fst (split_first "#"%char rest) in
  let rest := fst (split_first "?"%char rest) in
  if existsb (String.eqb (str sch)) uses_params then str (split_params rest)
  else str rest.

(** The netloc [urlsplit] finds: after the scheme, the text following
    ["//"] up to the first ['/'], ['?'] or ['#']. *)
Definition netloc (url : string) : list ascii :=
  match snd (split_scheme (chars url)) with
  | "/"%char :: "/"%char :: r => take_while (fun c => negb (existsb (Ascii.eqb c) (chars "/?#"))) r
  | _ => []
  end.

(** [urlsplit] raises [ValueError("Invalid IPv6 URL")] when the netloc
    holds exactly one of ['['] and [']']. *)
Definition invalid_ipv6 (url : string) : bool :=
  let n := netloc url in
  xorb (existsb (Ascii.eqb "["%char) n) (existsb (Ascii.eqb "]"%char) n).

End Py.

(* ------------------------------------------------------------------ *)
(** ** packaging.version                                               *)
(* ------------------------------------------------------------------ *)

(** [packaging.version.parse] of the packaging releases this project
    requires ([packaging>=14.2], before 22.0): a string matching
    [VERSION_PATTERN] gives a [Version], any other string a
    [LegacyVersion]; [parse] never raises. *)
Module PkgVersion.
Import Py.

Inductive local_part := LInt (n : Z) | LStr (s : string).

Inductive version :=
| Version (epoch : Z) (release : list Z) (pre : option (string * Z))
    (post : option Z) (dev : option Z) (local : option (list local_part))
| LegacyVersion (s : string).

(** A backtracking matcher: all matches, in the preference order of
    Python's [re] (greedy quantifiers first, left alternatives first). *)
Definition P (A : Type) := list ascii -> list (A * list ascii).

Definition pret {A} (a : A) : P A := fun s => [(a, s)].
Definition pbind {A B} (p : P A) (f : A -> P B) : P B :=
  fun s => flat_map (fun '(a, r) => f a r) (p s).
Definition palt {A} (p q : P A) : P A := fun s => p s ++ q s.
Definition pmap {A B} (f : A -> B) (p : P A) : P B := pbind p (fun a => pret (f a)).
(** [(...)?], greedy *)
Definition popt {A} (p : P A) : P (option A) := palt (pmap Some p) (pret None).

Local Notation "'pdo' x <- p 'in' k" := (pbind p (fun x => k))
  (at level 200, x name, p at level 100, k at level 200, right associativity).

Definition pchar (c : ascii) : P unit :=
  fun s => match s with
           | c' :: r => if Ascii.eqb c c' then [(tt, r)] else []
           | [] => []
           end.

Definition pword (w : string) : P string :=
  fun s => if lprefix (chars w) s then [(w, skipn (length (chars w)) s)] else [].

(** [a|b|...], left alternative first *)
Fixpoint pwords (ws : list string) : P string :=
  match ws with [] => fun _ => [] | w :: ws' => palt (pword w) (pwords ws') end.

(** [[-_\.]] *)
Definition psep : P unit :=
  fun s => match s with
           | c :: r => if existsb (Ascii.eqb c) (chars "-_.") then [(tt, r)] else []
           | [] => []
           end.

(** [X+] over a character class, greedy: the longest run first, then
    the shorter ones. *)
Definition pplus (cls : ascii -> bool) : P (list ascii) :=
  fun s =>
    let run := take_while cls s in
    map (fun k => (firstn k run, skipn k s)) (rev (seq 1 (length run))).

Definition digits_value (l : list ascii) : Z :=
  fold_left (fun acc c => acc * 10 + (code c - 48)) l 0.

(** [[0-9]+] *)
Definition pnum : P Z := pmap digits_value (pplus is_digit).

(** [[a-z0-9]+] *)
Definition palnum : P string := pmap str (pplus (fun c => is_lower c || is_digit c)).

(** [(X)*], greedy, with at most [n] iterations ([n] = input length). *)
Fixpoint pmany {A} (n : nat) (p : P A) : P (list A) :=
  match n with
  | O => pret []
  | S n' => palt (pdo x <- p in pdo xs <- pmany n' p in pret (x :: xs)) (pret [])
  end.

(** The groups of [VERSION_PATTERN]. *)
Record groups := {
  g_epoch : option Z;
  g_release : list Z;
  g_pre : option (string * option Z);
  g_post : option (option string * option Z);
  g_dev : option (option Z);
  g_local : option (list string) }.

Definition version_pattern (fuel : nat) : P groups :=
  pdo _ <- popt (pchar "v") in
  pdo e <- popt (pdo n <- pnum in pdo _ <- pchar "!" in pret n) in
  pdo r0 <- pnum in
  pdo rs <- pmany fuel (pdo _ <- pchar "." in pnum) in
  pdo pre <- popt (pdo _ <- popt psep in
                pdo l <- pwords ["a"; "b"; "c"; "rc"; "alpha"; "beta"; "pre"; "preview"] in
                pdo _ <- popt psep in pdo n <- popt pnum in pret (l, n)) in
  pdo post <- popt (palt
                   (pdo _ <- pchar "-" in pdo n <- pnum in pret (None, Some n))
                   (pdo _ <- popt psep in pdo l <- pwords ["post"; "rev"; "r"] in
                    pdo _ <- popt psep in pdo n <- popt pnum in pret (Some l, n))) in
  pdo dev <- popt (pdo _ <- popt psep in pdo _ <- pword "dev" in pdo _ <- popt psep in popt pnum) in
  pdo loc <- popt (pdo _ <- pchar "+" in pdo x <- palnum in
                pdo xs <- pmany fuel (pdo _ <- psep in palnum) in pret (x :: xs)) in
  pret {| g_epoch := e; g_release := r0 :: rs; g_pre := pre; g_post := post;
          g_dev := dev; g_local := loc |}.

(** [_parse_letter_version] for pre-releases *)
Definition pre_letter (l : string) : string :=
  if String.eqb l "alpha" then "a"
  else if String.eqb l "beta" then "b"
  else if existsb (String.eqb l) ["c"; "pre"; "preview"] then "rc"
  else l.

Definition opt0 (n : option Z) : Z := match n with Some k => k | None => 0 end.

(** [_parse_local_version] *)
Definition local_of (s : string) : local_part :=
  if forallb is_digit (chars s) then LInt (digits_value (chars s)) else LStr s.

Definition version_of_groups (g : groups) : version :=
  Version (opt0 (g_epoch g)) (g_release g)
    (option_map (fun '(l, n) => (pre_letter l, opt0 n)) (g_pre g))
    (option_map (fun '(_, n) => opt0 n) (g_post g))
    (option_map opt0 (g_dev g))
    (option_map (map local_of) (g_local g)).

(** [_regex.search(version)] with [^\s*] and [\s*$] around the pattern,
    under [re.IGNORECASE]: the first match that ends the input. *)
Definition match_version (s : string) : option groups :=
  let l := map lower_char (strip (chars s)) in
  match List.filter (fun '(_, rest) => match rest with [] => true | _ => false end)
               (version_pattern (length l) l) with
  | (g, _) :: _ => Some g
  | [] => None
  end.

Definition parse (s : string) : version :=
  match match_version s with
  | Some g => version_of_groups g
  | None => LegacyVersion s
  end.

(** Tuple comparison [<]: the first differing element decides, a proper
    prefix is smaller. *)
Fixpoint klt (a b : list Z) : bool :=
  match a, b with
  | [], [] => false
  | [], _ :: _ => true
  | _ :: _, [] => false
  | x :: xs, y :: ys => (x <? y) || ((x =? y) && klt xs ys)
  end.

(** *** [LegacyVersion]'s key: [_legacy_cmpkey] *)

(** [str.lower()] on code points below 256 (ASCII and Latin-1 capitals). *)
Definition py_lower (c : ascii) : ascii :=
  let n := code c in
  if ((65 <=? n) && (n <=? 90)) || ((192 <=? n) && (n <=? 222) && negb (n =? 215))
  then ascii_of_nat (Z.to_nat (n + 32)) else c.

Definition legacy_other (c : ascii) : bool :=
  negb (is_digit c || is_lower c || Ascii.eqb c "." || Ascii.eqb c "-").

(** [_legacy_version_component_re.split(s)] with the empty pieces dropped:
    the pattern [(\d+ | [a-z]+ | \.| -)] cuts [s] into maximal digit runs,
    maximal [a-z] runs, single ["."] and ["-"], and the maximal runs of
    other characters lying between its matches. *)
Fixpoint legacy_split (fuel : nat) (l : list ascii) : list string :=
  match fuel with
  | O => []
  | S f =>
      match l with
      | [] => []
      | c :: r =>
          if is_digit c then str (take_while is_digit l) :: legacy_split f (drop_while is_digit l)
          else if is_lower c then str (take_while is_lower l) :: legacy_split f (drop_while is_lower l)
          else if Ascii.eqb c "." || Ascii.eqb c "-" then str [c] :: legacy_split f r
          else str (take_while legacy_other l) :: legacy_split f (drop_while legacy_other l)
      end
  end.

(** [_legacy_version_replacement_map.get(part, part)] *)
Definition legacy_replace (p : string) : string :=
  if String.eqb p "pre" || String.eqb p "preview" || String.eqb p "rc" then "c"
  else if String.eqb p "-" then "final-"
  else if String.eqb p "dev" then "@"
  else p.

(** [part.zfill(8)] for a run of digits *)
Definition zfill8 (l : list ascii) : list ascii := repeat "0"%char (8 - length l) ++ l.

(** [_parse_version_parts] *)
Definition parse_version_parts (s : list ascii) : list string :=
  flat_map (fun part0 =>
              let part := legacy_replace part0 in
              if String.eqb part "" || String.eqb part "." then []
              else match chars part with
                   | c :: _ => if is_digit c then [str (zfill8 (chars part))]
                               else [("*" ++ part)%string]
                   | [] => []
                   end)
           (legacy_split (length s) s) ++ ["*final"].

(** [part < "*final"] on Python text: code points compared in order. *)
Definition str_lt (a b : string) : bool := klt (map code (chars a)) (map code (chars b)).

Fixpoint pop_while (x : string) (st : list string) : list string :=
  match st with
  | y :: r => if String.eqb y x then pop_while x r else st
  | [] => []
  end.

(** One turn of the loop of [_legacy_cmpkey]; [parts] is kept reversed,
    its last element first. *)
Definition cmpkey_step (parts : list string) (part : string) : list string :=
  let parts :=
    if startswith part "*" then
      let parts := if str_lt part "*final" then pop_while "*final-" parts else parts in
      pop_while "00000000" parts
    else parts in
  part :: parts.

(** The [parts] of [_legacy_cmpkey(version)]; its epoch is [-1]. *)
Definition legacy_cmpkey (s : string) : list string :=
  rev (fold_left cmpkey_step (parse_version_parts (map py_lower (chars s))) []).

(** The comparison key [_cmpkey], written as a list of integers whose
    lexicographic order [klt] is the order of packaging's key tuples:
    every field is encoded prefix-free and order-preserving (release
    numbers shifted by one and closed by 0, so that trailing zeros are
    stripped and a shorter release sorts first; [Infinity] and
    [NegativeInfinity] as the largest and smallest tag).  A
    [LegacyVersion] has epoch [-1], so it sorts below every [Version];
    two legacy versions compare by their tuples of strings, each string
    written as its code points shifted by two and closed by 1, the tuple
    closed by 0. *)
Fixpoint drop_zeros (l : list Z) : list Z :=
  match l with 0 :: l' => drop_zeros l' | _ => l end.

(** [tuple(reversed(list(dropwhile(lambda x: x == 0, reversed(release)))))] *)
Definition strip_zeros (r : list Z) : list Z := rev (drop_zeros (rev r)).

Definition enc_text (s : string) : list Z := map (fun c => code c + 1) (chars s) ++ [0].

Definition enc_part (s : string) : list Z := map (fun c => code c + 2) (chars s) ++ [1].

Definition pre_rank (l : string) : Z :=
  if String.eqb l "a" then 0 else if String.eqb l "b" then 1 else 2.

Definition local_key (p : local_part) : list Z :=
  match p with LInt n => [2; n] | LStr s => 1 :: enc_text s end.

Definition version_key (v : version) : list Z :=
  match v with
  | Version e r pre post dev loc =>
      [e] ++ map (fun n => n + 1) (strip_zeros r) ++ [0]
      ++ match pre, post, dev with
         | None, None, Some _ => [0]
         | None, _, _ => [2]
         | Some (l, n), _, _ => [1; pre_rank l; n]
         end
      ++ match post with None => [0] | Some n => [1; n] end
      ++ match dev with None => [1] | Some n => [0; n] end
      ++ match loc with None => [0] | Some ps => [1] ++ flat_map local_key ps ++ [0] end
  | LegacyVersion s => -1 :: flat_map enc_part (legacy_cmpkey s) ++ [0]
  end.

(** [a < b] on versions *)
Definition vlt (a b : version) : bool := klt (version_key a) (version_key b).

End PkgVersion.

(* ------------------------------------------------------------------ *)
(** ** hashlib.sha256(...).hexdigest() and str.encode("utf8")          *)
(* ------------------------------------------------------------------ *)

Module Sha256.

Definition mask32 : Z := 2 ^ 32 - 1.
Definition add (a b : Z) : Z := Z.land (a + b) mask32.
Definition rotr (x n : Z) : Z :=
  Z.land (Z.lor (Z.shiftr x n) (Z.shiftl x (32 - n))) mask32.
Definition shr (x n : Z) : Z := Z.shiftr x n.

Definition ch (e f g : Z) : Z := Z.lxor (Z.land e f) (Z.land (Z.lxor e mask32) g).
Definition maj (a b c : Z) : Z := Z.lxor (Z.lxor (Z.land a b) (Z.land a c)) (Z.land b c).
Definition bsig0 (a : Z) : Z := Z.lxor (Z.lxor (rotr a 2) (rotr a 13)) (rotr a 22).
Definition bsig1 (e : Z) : Z := Z.lxor (Z.lxor (rotr e 6) (rotr e 11)) (rotr e 25).
Definition ssig0 (w : Z) : Z := Z.lxor (Z.lxor (rotr w 7) (rotr w 18)) (shr w 3).
Definition ssig1 (w : Z) : Z := Z.lxor (Z.lxor (rotr w 17) (rotr w 19)) (shr w 10).

(** The round constants: the first 32 bits of the fractional parts of the
    cube roots of the first 64 primes, in decimal. *)
Definition K : list Z :=
  [1116352408; 1899447441; 3049323471; 3921009573; 961987163; 1508970993;
   2453635748; 2870763221; 3624381080; 310598401; 607225278; 1426881987;
   1925078388; 2162078206; 2614888103; 3248222580; 3835390401; 4022224774;
   264347078; 604807628; 770255983; 1249150122; 1555081692; 1996064986;
   2554220882; 2821834349; 2952996808; 3210313671; 3336571891; 3584528711;
   113926993; 338241895; 666307205; 773529912; 1294757372; 1396182291;
   1695183700; 1986661051; 2177026350; 2456956037; 2730485921; 2820302411;
   3259730800; 3345764771; 3516065817; 3600352804; 4094571909; 275423344;
   430227734; 506948616; 659060556; 883997877; 958139571; 1322822218;
   1537002063; 1747873779; 1955562222; 2024104815; 2227730452; 2361852424;
   2428436474; 2756734187; 3204031479; 3329325298].

Record state := mkState { ha : Z; hb : Z; hc : Z; hd : Z; he : Z; hf : Z; hg : Z; hh : Z }.

Definition H0 : state :=
  mkState 0x6a09e667 0xbb67ae85 0x3c6ef372 0xa54ff53a 0x510e527f 0x9b05688c 0x1f83d9ab 0x5be0cd19.

(** Big-endian words of a 64-byte block. *)
Fixpoint words (b : list Z) (n : nat) : list Z :=
  match n with
  | O => []
  | S n' =>
      match b with
      | b0 :: b1 :: b2 :: b3 :: r =>
          Z.lor (Z.shiftl b0 24) (Z.lor (Z.shiftl b1 16) (Z.lor (Z.shiftl b2 8) b3)) :: words r n'
      | _ => []
      end
  end.

(** The message schedule: [W[t]] for [t = 16..63] appended to the block. *)
Fixpoint schedule (w : list Z) (n : nat) : list Z :=
  match n with
  | O => w
  | S n' =>
      let t := length w in
      let nw := add (add (ssig1 (nth (t - 2) w 0)) (nth (t - 7) w 0))
                    (add (ssig0 (nth (t - 15) w 0)) (nth (t - 16) w 0)) in
      schedule (w ++ [nw]) n'
  end.

Definition round (s : state) (kw : Z * Z) : state :=
  let '(k, w) := kw in
  let t1 := add (add (add (add (hh s) (bsig1 (he s))) (ch (he s) (hf s) (hg s))) k) w in
  let t2 := add (bsig0 (ha s)) (maj (ha s) (hb s) (hc s)) in
  mkState (add t1 t2) (ha s) (hb s) (hc s) (add (hd s) t1) (he s) (hf s) (hg s).

Definition compress (h : state) (block : list Z) : state :=
  let w := schedule (words block 16) 48 in
  let s := fold_left round (combine K w) h in
  mkState (add (ha h) (ha s)) (add (hb h) (hb s)) (add (hc h) (hc s)) (add (hd h) (hd s))
          (add (he h) (he s)) (add (hf h) (hf s)) (add (hg h) (hg s)) (add (hh h) (hh s)).

Definition be_bytes (n : nat) (x : Z) : list Z :=
  map (fun i => Z.land (Z.shiftr x (8 * Z.of_nat (n - 1 - i))) 255) (seq 0 n).

(** Padding: [0x80], zeros up to 56 mod 64, then the bit length. *)
Definition pad (msg : list Z) : list Z :=
  let l := length msg in
  let z := ((119 - l mod 64) mod 64)%nat in
  msg ++ [128] ++ repeat 0 z ++ be_bytes 8 (8 * Z.of_nat l).

Fixpoint blocks (m : list Z) (n : nat) : list (list Z) :=
  match n with
  | O => []
  | S n' => match m with [] => [] | _ => firstn 64 m :: blocks (skipn 64 m) n' end
  end.

Definition digest (msg : list Z) : list Z :=
  let p := pad msg in
  let h := fold_left compress (blocks p (length p)) H0 in
  flat_map (be_bytes 4) [ha h; hb h; hc h; hd h; he h; hf h; hg h; hh h].

Definition hex_char (n : Z) : ascii :=
  nth (Z.to_nat n) (Py.chars "0123456789abcdef") "0"%char.

(** [.hexdigest()] *)
Definition hexdigest (bytes : list Z) : string :=
  Py.str (flat_map (fun b => [hex_char (Z.shiftr b 4); hex_char (Z.land b 15)]) bytes).

End Sha256.

(** [s.encode("utf8")] for code points below 256. *)
Definition utf8 (s : string) : list Z :=
  flat_map (fun c => let n := Py.code c in
                     if n <? 128 then [n]
                     else [Z.lor 192 (Z.shiftr n 6); Z.lor 128 (Z.land n 63)])
           (Py.chars s).

(* ------------------------------------------------------------------ *)
(** ** pvr/installer.py                                                *)
(* ------------------------------------------------------------------ *)

Module Installer.
Import Py PkgVersion.

(** An attribute as [html.parser] reports it: lower-cased name, and
    [None] for an attribute written without a value. *)
Definition attr := (string * option string)%type.

(** A start tag ([handle_starttag]; [handle_startendtag] forwards
    [<a .../>] to it), with its lower-cased tag name. *)
Definition starttag := (string * list attr)%type.

(** An HTML document is modelled by the start tags [html.parser.HTMLParser]
    reports for it, in document order. *)

Record Candidate := mkCandidate {
  c_version : version;
  c_url : string;
  c_filename : string }.

Record response := mkResponse {
  status_code : Z;
  content : list Z;          (* resp.content *)
  text_tags : list starttag  (* resp.text, as parsed by HTMLParser *) }.

Record invocation := mkInvocation {
  inv_args : list string;
  inv_env : list (string * string) }.

(** Observable effects, in the order they happen. *)
Inductive event :=
| EvGet (url : string)
| EvMakedirs (d : string)
| EvWrite (p : string)
| EvExec (inv : invocation)
| EvSessionOpen (sid : nat)
| EvSessionClose (sid : nat).

(** The file system (regular files with their bytes, directories), the
    effect log and the open/closed state of the [requests] sessions. *)
Record world := mkWorld {
  files : gmap string (list Z);
  dirs : gset string;
  log : list event;
  sessions : gmap nat bool;
  next_sid : nat }.

Definition set_files (w : world) f : world := mkWorld f (dirs w) (log w) (sessions w) (next_sid w).
Definition set_dirs (w : world) d : world := mkWorld (files w) d (log w) (sessions w) (next_sid w).
Definition emit (w : world) (e : event) : world :=
  mkWorld (files w) (dirs w) (log w ++ [e]) (sessions w) (next_sid w).

Inductive exn :=
| HTTPError (status : Z)          (* requests.HTTPError from raise_for_status *)
| NoAcceptableFile
| IndexError
| CalledProcessError (rc : Z)
| FileExistsError
| FileNotFoundError
| NotADirectoryError
| IsADirectoryError
| ValueError                      (* urllib.parse: "Invalid IPv6 URL" *).

Inductive result (A : Type) := Ok (a : A) | Err (e : exn).
Arguments Ok {A} a.
Arguments Err {A} e.

(** Python statements over the world, raising exceptions. *)
Definition M (A : Type) := world -> result A * world.

Definition ret {A} (a : A) : M A := fun w => (Ok a, w).
Definition raise {A} (e : exn) : M A := fun w => (Err e, w).
Definition bind {A B} (m : M A) (k : A -> M B) : M B :=
  fun w => match m w with
           | (Ok a, w') => k a w'
           | (Err e, w') => (Err e, w')
           end.
Definition lift {A} (r : result A) : M A := fun w => (r, w).

Notation "'do' x <- m 'in' k" := (bind m (fun x => k))
  (at level 200, x name, m at level 100, k at level 200, right associativity).

Section Program.

(** [urllib.parse.urljoin]: [None] when it raises [ValueError] (its
    [urlsplit] of the base or of the reference rejects the netloc, as for
    ["//[x"]); [urljoin(base, None)] is [base]. *)
Variable urljoin : string -> option string -> option string.
(** What the index server answers to a GET of a URL (redirects followed). *)
Variable server : string -> response.
(** The exit status of a child process. *)
Variable run : invocation -> Z.

(** *** LinkExtractor *)

(** [for attr, value in attrs: if attr == "rel" and value == "internal":
    break] / [else: return] *)
Fixpoint has_rel_internal (attrs : list attr) : bool :=
  match attrs with
  | [] => false
  | (a, v) :: r =>
      if String.eqb a "rel" && match v with Some s => String.eqb s "internal" | None => false end
      then true else has_rel_internal r
  end.

(** [LinkExtractor.handle_starttag], on [self.links]; the [ValueError]
    of [urljoin] propagates out of the handler. *)
Definition handle_starttag (base_url : string) (links : list string)
    (tag : string) (attrs : list attr) : result (list string) :=
  if negb (String.eqb tag "a") then Ok links
  else match attrs with
       | [] => Ok links
       | _ =>
           if negb (has_rel_internal attrs) then Ok links
           else fold_left (fun acc '(a, v) =>
                             match acc with
                             | Err e => Err e
                             | Ok ls =>
                                 if String.eqb a "href" then
                                   match urljoin base_url v with
                                   | Some u => Ok (ls ++ [u])
                                   | None => Err ValueError
                                   end
                                 else Ok ls
                             end)
                          attrs (Ok links)
       end.

(** [parser = LinkExtractor(base_url=...); parser.feed(text); parser.close()];
    the result is [parser.links], unless a handler raised: [feed] then
    raises that exception. *)
Definition extract_links (base_url : string) (doc : list starttag) : result (list string) :=
  fold_left (fun acc '(t, a) =>
               match acc with
               | Ok ls => handle_starttag base_url ls t a
               | Err e => Err e
               end) doc (Ok []).

(** *** PipInstaller *)

Record PipInstaller := mkPipInstaller {
  environment : string;
  cache_dir : string;
  session : nat }.

(** [self.session.get(url)] *)
Definition session_get (url : string) : M response :=
  fun w => (Ok (server url), emit w (EvGet url)).

(** [resp.raise_for_status()]: raises for 4xx and 5xx statuses. *)
Definition raise_for_status (r : response) : M unit :=
  let s := status_code r in
  if (400 <=? s) && (s <? 600) then raise (HTTPError s) else ret tt.

Definition is_file (w : world) (p : string) : bool :=
  match files w !! p with Some _ => true | None => false end.
Definition is_dir (w : world) (p : string) : bool := bool_decide (p ∈ dirs w).

(** [os.path.exists] *)
Definition path_exists (p : string) : M bool := fun w => (Ok (is_file w p || is_dir w p), w).

(** The proper ancestors of a path, nearest first. *)
Fixpoint ancestors (fuel : nat) (p : string) : list string :=
  match fuel with
  | O => []
  | S fuel' =>
      let h := dirname p in
      if String.eqb h "" || String.eqb h p then [] else h :: ancestors fuel' h
  end.

(** [os.makedirs(d)]: creates [d] and its missing ancestors; fails if [d]
    exists or an ancestor is a regular file. *)
Definition makedirs (d : string) : M unit :=
  fun w =>
    let anc := ancestors (String.length d) d in
    if is_file w d || is_dir w d then (Err FileExistsError, w)
    else if existsb (is_file w) anc then (Err NotADirectoryError, w)
    else (Ok tt, emit (set_dirs w ({[d]} ∪ list_to_set anc ∪ dirs w)) (EvMakedirs d)).

(** [with open(p, "wb") as fp: fp.write(data)] *)
Definition write_file (p : string) (data : list Z) : M unit :=
  fun w =>
    let parent := dirname p in
    if is_dir w p then (Err IsADirectoryError, w)
    else if String.eqb parent "" || is_dir w parent
    then (Ok tt, emit (set_files w (<[p := data]> (files w))) (EvWrite p))
    else if is_file w parent then (Err NotADirectoryError, w)
    else (Err FileNotFoundError, w).

(** [sorted(..., key=lambda x: x.version, reverse=True)]: CPython reverses,
    sorts stably by [<] on the keys, and reverses back.  The stable sort
    is written as an insertion sort (every stable sort by the same [<]
    gives the same list). *)
Fixpoint insert_by (x : Candidate) (l : list Candidate) : list Candidate :=
  match l with
  | [] => [x]
  | y :: r => if vlt (c_version y) (c_version x) then y :: insert_by x r else x :: l
  end.

Fixpoint sort_by (l : list Candidate) : list Candidate :=
  match l with [] => [] | x :: r => insert_by x (sort_by r) end.

Definition sorted_reverse (l : list Candidate) : list Candidate := rev (sort_by (rev l)).

(** The loop of [find] over [parser.links] building [candidates]. *)
Fixpoint collect (links : list string) : result (list Candidate) :=
  match links with
  | [] => Ok []
  | link :: rest =>
      let filename := basename (url_path link) in
      if negb (endswith filename ".whl") then collect rest
      else
        let wheel_parts := split filename "-" in
        match nth_error wheel_parts 1 with
        | None => Err IndexError
        | Some tok =>
            match collect rest with
            | Ok cs => Ok (mkCandidate (parse tok) link filename :: cs)
            | Err e => Err e
            end
        end
  end.

(** [find] from line 103 on, given [parser.links]. *)
Definition select (links : list string) : result Candidate :=
  match collect links with
  | Err e => Err e
  | Ok [] => Err NoAcceptableFile
  | Ok candidates =>
      match sorted_reverse candidates with
      | c :: _ => Ok c
      | [] => Err IndexError
      end
  end.

Definition default_index : string := "https://pypi.python.org/simple/".

(** [PipInstaller.find] *)
Definition find (index_url : string) : M Candidate :=
  do simple <- lift (match urljoin index_url (Some "pip/") with
                     | Some u => Ok u
                     | None => Err ValueError
                     end) in
  do resp <- session_get simple in
  do _ <- raise_for_status resp in
  do links <- lift (extract_links simple (text_tags resp)) in
  lift (select links).

(** The cache key and path computed by [download]. *)
Definition cache_key (c : Candidate) : string :=
  Sha256.hexdigest (Sha256.digest (utf8 (c_url c))).

(** [PipInstaller.download] *)
Definition download (self : PipInstaller) (candidate : Candidate) : M string :=
  let hashed := cache_key candidate in
  let cache_path := join3 (cache_dir self) hashed (c_filename candidate) in
  do cached <- path_exists cache_path in
  if cached then ret cache_path
  else
    do resp <- session_get (c_url candidate) in
    do _ <- raise_for_status resp in
    do has_dir <- path_exists (dirname cache_path) in
    do _ <- (if has_dir then ret tt else makedirs (dirname cache_path)) in
    do _ <- write_file cache_path (content resp) in
    ret cache_path.

(** [subprocess.check_call(args, env=env, stdout=DEVNULL)] *)
Definition check_call (args : list string) (env : list (string * string)) : M unit :=
  fun w =>
    let inv := mkInvocation args env in
    let rc := run inv in
    (if Z.eqb rc 0 then Ok tt else Err (CalledProcessError rc), emit w (EvExec inv)).

Definition install_invocation (self : PipInstaller) (filename : string) : invocation :=
  mkInvocation
    [join3 (environment self) "bin" "python"; "-c";
     ("import pip; pip.main(['install', '" ++ filename ++ "'])")%string]
    [("PYTHONPATH", filename)].

(** [PipInstaller.install] *)
Definition install (self : PipInstaller) : M unit :=
  do candidate <- find default_index in
  do filename <- download self candidate in
  check_call (inv_args (install_invocation self filename))
             (inv_env (install_invocation self filename)).

(** [PipInstaller(environment, cache_dir)]: [requests.session()] opens a
    fresh session. *)
Definition new_installer (environment cache_dir : string) : M PipInstaller :=
  fun w =>
    let sid := next_sid w in
    (Ok (mkPipInstaller environment cache_dir sid),
     emit (mkWorld (files w) (dirs w) (log w) (<[sid := true]> (sessions w)) (S sid))
          (EvSessionOpen sid)).

(** [PipInstaller.close]: [self.session.close()] *)
Definition close (self : PipInstaller) : M unit :=
  fun w =>
    (Ok tt, emit (mkWorld (files w) (dirs w) (log w) (<[session self := false]> (sessions w))
                          (next_sid w))
                 (EvSessionClose (session self))).

Definition enter (self : PipInstaller) : M PipInstaller := ret self.

(** [__exit__] returns [None]: an exception of the body is not suppressed. *)
Definition exit (self : PipInstaller) : M unit := close self.

(** [with PipInstaller(environment, cache_dir) as installer: body(installer)]:
    [__exit__] runs after the body, whether it returned or raised. *)
Definition with_installer {A} (environment cache_dir : string)
    (body : PipInstaller -> M A) : M A :=
  do mgr <- new_installer environment cache_dir in
  do installer <- enter mgr in
  fun w =>
    let '(r, w1) := body installer w in
    let '(r2, w2) := exit mgr w1 in
    (match r2 with Err e => Err e | Ok _ => r end, w2).

(** The last step of [cli.create]. *)
Definition create_install (target cache : string) : M unit :=
  with_installer target cache install.

End Program.
End Installer.

(* ------------------------------------------------------------------ *)
(** ** pvr/cli.py                                                      *)
(* ------------------------------------------------------------------ *)

Module Cli.
Import Py Installer.

(** What a command ends with: it returns, raises [click.ClickException]
    (reported by click as an error message), raises another exception,
    or replaces the process through [os.execvpe]. *)
Inductive outcome (A : Type) :=
| Returned (a : A)
| ClickException (message : string)
| Raised (e : exn)
| Exec (file : string) (args : list string) (env : gmap string string).
Arguments Returned {A} a.
Arguments ClickException {A} message.
Arguments Raised {A} e.
Arguments Exec {A} file args env.

Definition CM (A : Type) := world -> outcome A * world.

Definition cbind {A B} (m : CM A) (k : A -> CM B) : CM B :=
  fun w => match m w with
           | (Returned a, w') => k a w'
           | (ClickException msg, w') => (ClickException msg, w')
           | (Raised e, w') => (Raised e, w')
           | (Exec f a e, w') => (Exec f a e, w')
           end.

(** Running a statement of [installer.py]: its exception propagates. *)
Definition clift {A} (m : M A) : CM A :=
  fun w => match m w with
           | (Ok a, w') => (Returned a, w')
           | (Err e, w') => (Raised e, w')
           end.

Definition click_exception {A} (msg : string) : CM A := fun w => (ClickException msg, w).

Local Notation "'cdo' x <- m 'in' k" := (cbind m (fun x => k))
  (at level 200, x name, m at level 100, k at level 200, right associativity).

(** [s.rstrip("/")] *)
Definition rstrip_slash (s : string) : string :=
  str (rev (drop_while (Ascii.eqb slash) (rev (chars s)))).

(** [posixpath.expanduser]: [home] is [$HOME], or the password database
    entry of the current user when [HOME] is unset ([None] if there is
    none); [user_home] looks up [~name]. *)
Definition expanduser (home : option string) (user_home : string -> option string)
    (path : string) : string :=
  if negb (startswith path "~") then path
  else
    let l := chars path in
    let i := match find_char slash (skipn 1 l) with Some k => S k | None => length l end in
    let userhome := if Nat.eqb i 1 then home else user_home (str (firstn (i - 1) (skipn 1 l))) in
    match userhome with
    | None => path
    | Some uh =>
        let r := (rstrip_slash uh ++ str (skipn i l))%string in
        if String.eqb r "" then "/" else r
    end.

Record context_obj := mkObj {
  cache : string;         (* ctx.obj["dirs"]["cache"] *)
  environments : string   (* ctx.obj["dirs"]["environments"] *) }.

(** The [cli] group callback: [os.path.join] of a single path is that
    path; [user_cache_dir] is what [appdirs] computes. *)
Definition cli (user_cache_dir : string) (home : option string)
    (user_home : string -> option string) : context_obj :=
  mkObj user_cache_dir (expanduser home user_home "~/.pvr/envs").

(** [shutil.rmtree(p)]: a directory is removed with everything below it;
    a regular file raises [NotADirectoryError], a missing path
    [FileNotFoundError] (symbolic links and permissions are not modelled). *)
Definition under (p q : string) : bool := String.eqb q p || startswith q (p ++ "/").

Definition rmtree (p : string) : M unit :=
  fun w =>
    if is_dir w p then
      (Ok tt, mkWorld (filter (fun kv => under p kv.1 = false) (files w))
                      (filter (fun q => under p q = false) (dirs w))
                      (log w) (sessions w) (next_sid w))
    else if is_file w p then (Err NotADirectoryError, w)
    else (Err FileNotFoundError, w).

(** [os.pathsep] and [os.defpath] on POSIX. *)
Definition pathsep : string := ":".
Definition defpath : string := "/bin:/usr/bin".

Section Commands.

Variable urljoin : string -> option string -> option string.
Variable server : string -> response.
Variable run : invocation -> Z.
(** [EnvBuilder(system_site_packages=False, clear=False).create(target)]
    ([pvr/builder.py]). *)
Variable build : string -> M unit.
(** [os.execvpe(file, args, env)]: [None] when the process is replaced,
    [Some e] for the exception it raises instead ([FileNotFoundError]
    when [file] is found on no directory of the new [PATH], for
    example). *)
Variable execvpe : string -> list string -> gmap string string -> option exn.

(** [create] *)
Definition create (obj : context_obj) (name : string) : CM unit :=
  let target := join2 (environments obj) name in
  cdo ex <- clift (path_exists target) in
  if ex then click_exception ("An environment named " ++ name ++ " already exists.")
  else
    cdo _ <- clift (build target) in
    clift (create_install urljoin server run target (cache obj)).

(** [remove] *)
Definition remove (obj : context_obj) (name : string) : CM unit :=
  let target := join2 (environments obj) name in
  clift (rmtree target).

(** [exec_], with [os.environ] as [environ]. *)
Definition exec_ (environ : gmap string string) (obj : context_obj) (name : string)
    (command : list string) : CM unit :=
  let target := join2 (environments obj) name in
  let bin_dir := join2 target "bin" in
  cdo ex <- clift (path_exists target) in
  if negb ex then click_exception ("No environment named " ++ name)
  else
    let path := (bin_dir ++ pathsep ++ default defpath (environ !! "PATH"))%string in
    let env := <["PATH" := path]> environ in
    match command with
    | [] => clift (raise IndexError)
    | c0 :: _ => fun w =>
        match execvpe c0 command env with
        | Some e => (Raised e, w)
        | None => (Exec c0 command env, w)
        end
    end.

End Commands.
End Cli.

(* ------------------------------------------------------------------ *)
(** ** Names used in the statements                                    *)
(* ------------------------------------------------------------------ *)

Module Helpers.
Import Py PkgVersion Installer.

Definition below (x : Candidate) (y : Candidate) : bool := vlt (c_version y) (c_version x).

(** [posixpath.basename(urllib.parse.urlparse(link).path)] *)
Definition link_filename (link : string) : string := basename (url_path link).

(** The link's file name ends in [".whl"]. *)
Definition is_wheel_link (link : string) : bool := endswith (link_filename link) ".whl".

(** The link's file name has a second hyphen-delimited token. *)
Definition hyphenated (link : string) : bool := contains (link_filename link) "-".

Definition wheel_token (link : string) : string := nth 1 (split (link_filename link) "-") "".

(** The candidate [find] builds for a wheel link. *)
Definition candidate_of (link : string) : Candidate :=
  mkCandidate (parse (wheel_token link)) link (link_filename link).

Definition is_http_error (status : Z) : bool := (400 <=? status) && (status <? 600).

(** What one start tag contributes, read off the specification: an [a]
    element with an attribute [rel="internal"] contributes its [href]
    values, in attribute order. *)
Definition anchor_hrefs (t : starttag) : list (option string) :=
  let '(tag, attrs) := t in
  if String.eqb tag "a" && bool_decide (("rel", Some "internal") ∈ attrs)
  then map snd (List.filter (fun '(n, _) => String.eqb n "href") attrs)
  else [].

(** Resolving [href] values against a base URL one after the other: the
    first one [urljoin] rejects raises [ValueError]. *)
Fixpoint resolve_all (urljoin : string -> option string -> option string) (base : string)
    (vs : list (option string)) : result (list string) :=
  match vs with
  | [] => Ok []
  | v :: vs' =>
      match urljoin base v with
      | None => Err ValueError
      | Some u =>
          match resolve_all urljoin base vs' with
          | Ok us => Ok (u :: us)
          | Err e => Err e
          end
      end
  end.

(** Whether an event is a child-process invocation. *)
Definition is_exec (e : event) : bool := match e with EvExec _ => true | _ => false end.

(** The path [download] computes for a candidate. *)
Definition cache_path (self : PipInstaller) (c : Candidate) : string :=
  join3 (cache_dir self) (cache_key c) (c_filename c).

(** A root that is nonempty and does not end in a slash. *)
Definition plain_root (r : string) : Prop := r <> "" /\ endswith r "/" = false.

(** A single path component: nonempty, without a slash, neither ["."]
    nor [".."]. *)
Definition path_component (s : string) : bool :=
  negb (String.eqb s "") && negb (String.eqb s ".") && negb (String.eqb s "..")
  && negb (contains s "/").

(** An absolute path in normal form, ["/c1/.../cn"] with [n >= 1]
    components: the form under which the world's paths are recorded, so
    that [os.path.exists], [isdir] and [lstat] of such a path are what the
    world says of it. *)
Definition normal_abs (p : string) : bool :=
  match chars p with
  | "/"%char :: rest => forallb path_component (split (str rest) "/")
  | _ => false
  end.

End Helpers.

(* ------------------------------------------------------------------ *)
(** ** Concrete inputs                                                 *)
(* ------------------------------------------------------------------ *)

Module Examples.
Import Py Installer Helpers.

(** A [urljoin] that raises [ValueError] when the netloc of the base or
    of the reference has unbalanced IPv6 brackets, keeps absolute
    [https:] references, and appends relative ones to a base ending in a
    slash. *)
Definition uj (base : string) (v : option string) : option string :=
  match v with
  | Some s =>
      if invalid_ipv6 base || invalid_ipv6 s then None
      else if startswith s "https:" then Some s else Some (base ++ s)%string
  | None => Some base
  end.

Definition simple_url : string := "https://pypi.python.org/simple/pip/".

(** [<a href="..." rel="internal">] *)
Definition anchor (href : string) : starttag :=
  ("a", [("href", Some href); ("rel", Some "internal")]).

(** An index server: the pip page lists the given files; every other URL
    serves the bytes of a zip header. *)
Definition index_server (page : list string) (url : string) : response :=
  if String.eqb url simple_url then mkResponse 200 [] (map anchor page)
  else mkResponse 200 [80; 75; 3; 4] [].

(** A server answering every request with the given status and no body. *)
Definition status_server (status : Z) (url : string) : response := mkResponse status [] [].

Definition spec_page : list string :=
  ["pip-1.0.0-py3-none-any.whl"; "pip-2.0.0-py3-none-any.whl";
   "pip-1.5.0rc1-py3-none-any.whl"].

Definition stray_page : list string := ["pip-2.0.0-py3-none-any.whl"; "pip.whl"].

Definition bare_page : list string := ["pip.whl"].


(** Two wheels with non-PEP 440 tokens [x2] and [x10]. *)
Definition legacy_pair_page : list string :=
  ["pip-x2-py3-none-any.whl"; "pip-x10-py3-none-any.whl"].

(** A page whose only internal anchor has a reference with an unclosed
    IPv6 bracket. *)
Definition ipv6_doc : list starttag :=
  [("a", [("rel", Some "internal"); ("href", Some "http://[::1/x")])].

(** An index server answering [ipv6_doc] for the pip page. *)
Definition ipv6_server (url : string) : response :=
  if String.eqb url simple_url then mkResponse 200 [] ipv6_doc else mkResponse 404 [] [].

Definition empty_world : world := mkWorld ∅ {[ "/c" ]} [] ∅ 0.

Definition inst : PipInstaller := mkPipInstaller "/env" "/c" 0.

Definition wheel : Candidate :=
  mkCandidate (PkgVersion.parse "2.0.0") (simple_url ++ "pip-2.0.0-py3-none-any.whl")
              "pip-2.0.0-py3-none-any.whl".

(** A world in which a directory sits at the cache path of [wheel]. *)
Definition dir_world : world := mkWorld ∅ {[ cache_path inst wheel ]} [] ∅ 0.

(** A page mixing a non-PEP 440 wheel, a PEP 440 wheel and a non-wheel. *)
Definition mixed_page : list string :=
  ["pip-foo-py3-none-any.whl"; "pip-1.0-py3-none-any.whl"; "pip-1.1.tar.gz"].

(** The command-line context with [HOME=/home/u]. *)
Definition obj : Cli.context_obj := Cli.mkObj "/c" "/home/u/.pvr/envs".

(** An environment [demo] with one file, next to another environment. *)
Definition env_world : world :=
  mkWorld {[ "/home/u/.pvr/envs/demo/bin/python" := [127; 69; 76; 70];
             "/home/u/.pvr/envs/other/bin/python" := [127; 69; 76; 70] ]}
          {[ "/home/u/.pvr/envs"; "/home/u/.pvr/envs/demo"; "/home/u/.pvr/envs/demo/bin";
             "/home/u/.pvr/envs/other"; "/home/u/.pvr/envs/other/bin" ]}
          [] ∅ 0.

Definition environ : gmap string string := {[ "PATH" := "/usr/bin"; "HOME" := "/home/u" ]}.

(** An environment builder that only creates the target directory. *)
Definition mkdir_build (t : string) : M unit := makedirs t.

(** An [os.execvpe] that finds only [python] and [pip]; any other
    command raises [FileNotFoundError]. *)
Definition execvpe_bin (file : string) (args : list string) (env : gmap string string) : option exn :=
  if String.eqb file "python" || String.eqb file "pip" then None else Some FileNotFoundError.

End Examples.

(* ------------------------------------------------------------------ *)
(** ** The version order is a strict total order on keys              *)
(* ------------------------------------------------------------------ *)

Module OrderFacts.
Import PkgVersion.

Lemma klt_irrefl (a : list Z) : klt a a = false.
Proof.
  induction a as [|x a IH]; simpl; [reflexivity|].
  rewrite Z.ltb_irrefl, Z.eqb_refl, IH. reflexivity.
Qed.

Lemma klt_trans (a b c : list Z) : klt a b = true -> klt b c = true -> klt a c = true.
Proof.
  revert b c; induction a as [|x a IH]; intros [|y b] [|z c]; simpl; try discriminate; auto.
  intros H1 H2.
  apply orb_true_iff in H1, H2; apply orb_true_iff.
  destruct H1 as [H1|H1]; destruct H2 as [H2|H2];
    try apply andb_true_iff in H1 as [E1 H1]; try apply andb_true_iff in H2 as [E2 H2];
    rewrite ?Z.ltb_lt in *; rewrite ?Z.eqb_eq in *; subst.
  - left; apply Z.ltb_lt; lia.
  - left; apply Z.ltb_lt; lia.
  - left; apply Z.ltb_lt; lia.
  - right; apply andb_true_iff; split; [apply Z.eqb_refl | eauto].
Qed.

Lemma klt_total (a b : list Z) : klt a b = false -> klt b a = false -> a = b.
Proof.
  revert b; induction a as [|x a IH]; intros [|y b]; simpl; try discriminate; auto.
  intros H1 H2.
  apply orb_false_iff in H1 as [L1 E1], H2 as [L2 E2].
  rewrite Z.ltb_ge in L1, L2.
  assert (x = y) by lia; subst.
  rewrite Z.eqb_refl in E1, E2; simpl in E1, E2.
  f_equal; auto.
Qed.

Lemma vlt_irrefl (v : version) : vlt v v = false.
Proof. apply klt_irrefl. Qed.

Lemma vlt_trans (a b c : version) : vlt a b = true -> vlt b c = true -> vlt a c = true.
Proof. apply klt_trans. Qed.

(** Two versions neither below the other have the same key. *)
Lemma vlt_total (a b : version) :
  vlt a b = false -> vlt b a = false -> version_key a = version_key b.
Proof. apply klt_total. Qed.

Lemma vlt_key_l (a b c : version) :
  version_key a = version_key b -> vlt a c = vlt b c.
Proof. unfold vlt; intros ->; reflexivity. Qed.

End OrderFacts.

(* ------------------------------------------------------------------ *)
(** ** The stable descending sort picks the first maximal candidate    *)
(* ------------------------------------------------------------------ *)

Module SortFacts.
Import PkgVersion Installer OrderFacts Helpers.

Lemma forallb_insert_by (f : Candidate -> bool) x l :
  forallb f (insert_by x l) = f x && forallb f l.
Proof.
  induction l as [|y l IH]; simpl; [reflexivity|].
  destruct (vlt (c_version y) (c_version x)); simpl.
  - rewrite IH. destruct (f x), (f y); reflexivity.
  - reflexivity.
Qed.

Lemma forallb_sort_by (f : Candidate -> bool) l : forallb f (sort_by l) = forallb f l.
Proof.
  induction l as [|x l IH]; simpl; [reflexivity|].
  rewrite forallb_insert_by, IH. reflexivity.
Qed.

Lemma insert_by_not_nil x l : insert_by x l <> [].
Proof. destruct l; simpl; [discriminate|]. destruct (vlt _ _); discriminate. Qed.

Lemma length_insert_by x l : length (insert_by x l) = S (length l).
Proof.
  induction l as [|y l IH]; simpl; [reflexivity|].
  destruct (vlt _ _); simpl; rewrite ?IH; reflexivity.
Qed.

Lemma length_sort_by l : length (sort_by l) = length l.
Proof. induction l; simpl; rewrite ?length_insert_by; auto. Qed.



(** The last element after inserting [x]: [x] itself exactly when every
    element is below it. *)
Lemma last_insert_by x l d :
  List.last (insert_by x l) d = if forallb (below x) l then x else List.last l d.
Proof.
  assert (Hl : forall (z : Candidate) k, k <> [] -> List.last (z :: k) d = List.last k d)
    by (intros z [|] ?; [congruence|reflexivity]).
  induction l as [|y l IH]; [reflexivity|].
  cbn [insert_by forallb]; unfold below at 1.
  destruct (vlt (c_version y) (c_version x)) eqn:E; cbn [andb].
  - rewrite Hl by apply insert_by_not_nil. rewrite IH.
    destruct (forallb (below x) l) eqn:F; [reflexivity|].
    destruct l; [discriminate F|reflexivity].
  - rewrite Hl by discriminate. reflexivity.
Qed.

Lemma last_sort_by_cons x l d :
  List.last (sort_by (x :: l)) d = if forallb (below x) l then x else List.last (sort_by l) d.
Proof. simpl. rewrite last_insert_by, forallb_sort_by. reflexivity. Qed.

(** In a nonempty list, the last element after sorting is preceded by
    elements it is not below, and followed by elements below it. *)
Lemma last_sort_by_split (m : list Candidate) d :
  m <> [] ->
  exists a b, m = a ++ List.last (sort_by m) d :: b /\
    Forall (fun z => vlt (c_version (List.last (sort_by m) d)) (c_version z) = false) a /\
    Forall (fun z => vlt (c_version z) (c_version (List.last (sort_by m) d)) = true) b.
Proof.
  induction m as [|x m IH]; intros Hne; [congruence|].
  rewrite last_sort_by_cons.
  destruct (forallb (below x) m) eqn:Hall.
  - exists [], m. split; [reflexivity|]. split; [constructor|].
    apply List.Forall_forall; intros z Hz.
    apply forallb_forall with (x := z) in Hall; auto.
  - destruct m as [|y m']; [simpl in Hall; discriminate|].
    destruct (IH ltac:(discriminate)) as (a & b & Hm & Ha & Hb).
    set (r := List.last (sort_by (y :: m')) d) in *.
    exists (x :: a), b. split; [rewrite Hm; reflexivity|]. split; [|exact Hb].
    constructor; [|exact Ha].
    apply Bool.not_true_iff_false; intros Hrx.
    apply Bool.not_true_iff_false in Hall; apply Hall.
    apply forallb_forall; intros z Hz; unfold below.
    (* every element of the tail is below [r], or level with it *)
    rewrite Hm in Hz; apply in_app_or in Hz as [Hz|[Hz|Hz]].
    + rewrite List.Forall_forall in Ha; specialize (Ha z Hz).
      destruct (vlt (c_version z) (c_version r)) eqn:Hzr.
      * eapply vlt_trans; eauto.
      * rewrite (vlt_key_l _ (c_version r)); [exact Hrx|].
        apply vlt_total; assumption.
    + subst z; exact Hrx.
    + rewrite List.Forall_forall in Hb; eapply vlt_trans; [apply Hb; exact Hz|exact Hrx].
Qed.

Lemma hd_rev_last {A} (l : list A) d : hd d (rev l) = List.last l d.
Proof.
  induction l as [|x l IH]; simpl; [reflexivity|].
  destruct l as [|y l]; [reflexivity|].
  rewrite <- IH. simpl. destruct (rev l); reflexivity.
Qed.

(** [sorted(candidates, key=..., reverse=True)[0]] is the first candidate
    of maximal version: every earlier one has a smaller version, no later
    one a larger version. *)
Lemma sorted_reverse_head (cs : list Candidate) c rest :
  sorted_reverse cs = c :: rest ->
  exists pre post, cs = pre ++ c :: post /\
    Forall (fun z => vlt (c_version z) (c_version c) = true) pre /\
    Forall (fun z => vlt (c_version c) (c_version z) = false) post.
Proof.
  unfold sorted_reverse; intros H.
  assert (Hc : c = List.last (sort_by (rev cs)) c).
  { rewrite <- hd_rev_last, H. reflexivity. }
  assert (Hne : rev cs <> []).
  { intros E; rewrite E in H; discriminate. }
  destruct (last_sort_by_split (rev cs) c Hne) as (a & b & Hm & Ha & Hb).
  rewrite <- Hc in Hm, Ha, Hb.
  exists (rev b), (rev a). split.
  - rewrite <- (rev_involutive cs), Hm, rev_app_distr. simpl. rewrite <- app_assoc. reflexivity.
  - split; apply Forall_rev; assumption.
Qed.

End SortFacts.

(* ------------------------------------------------------------------ *)
(** ** The candidate loop of [find]                                    *)
(* ------------------------------------------------------------------ *)

Module FindFacts.
Import Py PkgVersion Installer OrderFacts Helpers SortFacts.

Lemma split_on_not_nil c l : split_on c l <> [].
Proof.
  destruct l as [|x l]; simpl; [discriminate|].
  destruct (Ascii.eqb x c); [discriminate|].
  destruct (split_on c l); discriminate.
Qed.

(** [s.split("-")[1]] fails exactly when [s] has no ["-"]. *)
Lemma split_on_second_none c l :
  nth_error (split_on c l) 1 = None <-> existsb (Ascii.eqb c) l = false.
Proof.
  induction l as [|x l IH]; simpl; [split; reflexivity|].
  destruct (Ascii.eqb x c) eqn:E.
  - apply Ascii.eqb_eq in E; subst x. rewrite Ascii.eqb_refl; simpl.
    destruct (split_on c l) eqn:Es; [exfalso; eapply split_on_not_nil; eauto|].
    split; discriminate.
  - rewrite Ascii.eqb_sym, E; simpl.
    pose proof (split_on_not_nil c l) as Hn.
    destruct (split_on c l) as [|p ps] eqn:Es; [congruence|].
    rewrite <- IH. destruct ps; reflexivity.
Qed.

Lemma split_second_none s :
  nth_error (split s "-") 1 = None <-> contains s "-" = false.
Proof.
  unfold split, contains. rewrite nth_error_map.
  rewrite <- split_on_second_none.
  destruct (nth_error (split_on "-" (chars s)) 1); simpl; split; congruence.
Qed.

Lemma collect_cons l rest :
  collect (l :: rest) =
  if negb (is_wheel_link l) then collect rest
  else match nth_error (split (link_filename l) "-") 1 with
       | None => Err IndexError
       | Some tok =>
           match collect rest with
           | Ok cs => Ok (mkCandidate (parse tok) l (link_filename l) :: cs)
           | Err e => Err e
           end
       end.
Proof. reflexivity. Qed.

Lemma second_token l tok :
  nth_error (split (link_filename l) "-") 1 = Some tok -> tok = wheel_token l.
Proof. unfold wheel_token. intros H. symmetry. apply nth_error_nth. exact H. Qed.


Lemma collect_ok_inv links cs :
  collect links = Ok cs -> cs = map candidate_of (List.filter is_wheel_link links).
Proof.
  revert cs; induction links as [|l rest IH]; intros cs H.
  - inversion H; reflexivity.
  - rewrite collect_cons in H. simpl List.filter.
    destruct (is_wheel_link l); cbn [negb map] in *; [|auto].
    destruct (nth_error (split (link_filename l) "-") 1) as [tok|] eqn:Et; [|discriminate].
    destruct (collect rest) as [cs'|e] eqn:Er; [|discriminate].
    inversion H; subst. apply second_token in Et; subst tok.
    rewrite (IH cs' eq_refl). reflexivity.
Qed.

Lemma collect_index_error links :
  collect links = Err IndexError <->
  exists l, In l links /\ is_wheel_link l = true /\ hyphenated l = false.
Proof.
  induction links as [|l rest IH].
  - simpl. split; [discriminate|]. intros (? & [] & _).
  - rewrite collect_cons. cbn [In]. split.
    + destruct (is_wheel_link l) eqn:Ew; cbn [negb map].
      * destruct (nth_error (split (link_filename l) "-") 1) eqn:Et.
        -- destruct (collect rest) eqn:Er; [discriminate|].
           intros H; inversion H; subst.
           destruct (proj1 IH eq_refl) as (l' & ? & ? & ?). exists l'; auto.
        -- intros _. exists l. split; [auto|]. split; [exact Ew|].
           apply split_second_none in Et. exact Et.
      * intros H. destruct (proj1 IH H) as (l' & ? & ? & ?). exists l'; auto.
    + intros (l' & Hin & Hw & Hh).
      destruct (is_wheel_link l) eqn:Ew; cbn [negb map].
      * destruct (nth_error (split (link_filename l) "-") 1) eqn:Et; [|reflexivity].
        destruct Hin as [<-|Hin].
        -- apply split_second_none in Hh. unfold hyphenated in Hh. congruence.
        -- rewrite (proj2 IH (ex_intro _ l' (conj Hin (conj Hw Hh)))). reflexivity.
      * destruct Hin as [<-|Hin]; [congruence|].
        apply IH. exists l'; auto.
Qed.

Lemma collect_err links e : collect links = Err e -> e = IndexError.
Proof.
  induction links as [|l rest IH]; [discriminate|].
  rewrite collect_cons.
  destruct (is_wheel_link l); cbn [negb]; [|exact IH].
  destruct (nth_error _ 1); [|congruence].
  destruct (collect rest); [discriminate|]. intros H; inversion H; subst; auto.
Qed.

Lemma sorted_reverse_not_nil c cs : sorted_reverse (c :: cs) <> [].
Proof.
  unfold sorted_reverse. intros H.
  apply (f_equal (@length Candidate)) in H.
  rewrite length_rev, length_sort_by, length_rev in H. discriminate.
Qed.




Lemma select_index_error links :
  select links = Err IndexError <->
  exists l, In l links /\ is_wheel_link l = true /\ hyphenated l = false.
Proof.
  rewrite <- collect_index_error. unfold select. split.
  - destruct (collect links) as [[|c cs]|e];
      [discriminate| |intros H; inversion H; reflexivity].
    destruct (sorted_reverse (c :: cs)) eqn:Es; [|discriminate]; intros _.
    exfalso; eapply sorted_reverse_not_nil; eauto.
  - intros ->. reflexivity.
Qed.

(** The candidate [select] returns is the first of maximal version. *)
Lemma select_max links c :
  select links = Ok c ->
  exists pre post,
    map candidate_of (List.filter is_wheel_link links) = pre ++ c :: post /\
    Forall (fun z => vlt (c_version z) (c_version c) = true) pre /\
    Forall (fun z => vlt (c_version c) (c_version z) = false) post.
Proof.
  unfold select. destruct (collect links) as [cs|e] eqn:Ec; [|discriminate].
  apply collect_ok_inv in Ec. rewrite <- Ec.
  destruct cs as [|c0 cs]; [discriminate|].
  destruct (sorted_reverse (c0 :: cs)) as [|c' rest] eqn:Es; [discriminate|].
  intros H; inversion H; subst c'.
  apply (sorted_reverse_head _ _ _ Es).
Qed.

(** [find] resolves the page URL, fetches the page once, then raises the
    HTTP error, or the extractor's error, or runs [select] on the page's
    links. *)
Lemma find_eq urljoin server idx w :
  find urljoin server idx w =
  match urljoin idx (Some "pip/") with
  | None => (Err ValueError, w)
  | Some simple =>
      let resp := server simple in
      if is_http_error (status_code resp)
      then (Err (HTTPError (status_code resp)), emit w (EvGet simple))
      else (match extract_links urljoin simple (text_tags resp) with
            | Ok links => select links
            | Err e => Err e
            end, emit w (EvGet simple))
  end.
Proof.
  unfold find, bind, session_get, raise_for_status, lift, is_http_error, raise, ret.
  destruct (urljoin idx (Some "pip/")) as [simple|]; [|reflexivity]. simpl.
  destruct (_ && _); [reflexivity|]. destruct (extract_links _ _ _); reflexivity.
Qed.

End FindFacts.

(* ------------------------------------------------------------------ *)
(** ** LinkExtractor                                                   *)
(* ------------------------------------------------------------------ *)

Module ExtractorFacts.
Import Py Installer Helpers.

Lemma fold_hrefs_err (urljoin : string -> option string -> option string) base
    (attrs : list attr) e :
  fold_left (fun acc '(a, v) =>
               match acc with
               | Err e => Err e
               | Ok ls =>
                   if String.eqb a "href" then
                     match urljoin base v with Some u => Ok (ls ++ [u]) | None => Err ValueError end
                   else Ok ls
               end) attrs (Err e) = Err e.
Proof. induction attrs as [|[a v] attrs IH]; simpl; auto. Qed.

Lemma fold_hrefs (urljoin : string -> option string -> option string) base
    (attrs : list attr) acc :
  fold_left (fun acc '(a, v) =>
               match acc with
               | Err e => Err e
               | Ok ls =>
                   if String.eqb a "href" then
                     match urljoin base v with Some u => Ok (ls ++ [u]) | None => Err ValueError end
                   else Ok ls
               end) attrs (Ok acc) =
  match resolve_all urljoin base (map snd (List.filter (fun '(n, _) => String.eqb n "href") attrs)) with
  | Ok us => Ok (acc ++ us)
  | Err e => Err e
  end.
Proof.
  revert acc; induction attrs as [|[a v] attrs IH]; intros acc; simpl.
  - rewrite app_nil_r; reflexivity.
  - destruct (String.eqb a "href"); simpl; [|apply IH].
    destruct (urljoin base v) as [u|]; [|apply fold_hrefs_err].
    rewrite IH. destruct (resolve_all _ _ _); [|reflexivity].
    rewrite <- app_assoc. reflexivity.
Qed.

Lemma rel_internal_iff (a : string) (v : option string) :
  (String.eqb a "rel" && match v with Some s => String.eqb s "internal" | None => false end)
  = bool_decide ((a, v) = ("rel", Some "internal")).
Proof.
  destruct (decide ((a, v) = ("rel", Some "internal"))) as [E|E].
  - rewrite bool_decide_eq_true_2 by exact E. inversion E; subst. reflexivity.
  - rewrite bool_decide_eq_false_2 by exact E.
    destruct (String.eqb a "rel") eqn:Ea; [|reflexivity].
    apply String.eqb_eq in Ea; subst a.
    destruct v as [s|]; [|reflexivity]. simpl.
    destruct (String.eqb s "internal") eqn:Es; [|reflexivity].
    apply String.eqb_eq in Es; subst. contradiction.
Qed.

Lemma has_rel_internal_spec (attrs : list attr) :
  has_rel_internal attrs = bool_decide (("rel", Some "internal") ∈ attrs).
Proof.
  induction attrs as [|[a v] attrs IH]; simpl.
  - first [reflexivity | symmetry; apply bool_decide_eq_false_2, not_elem_of_nil].
  - rewrite rel_internal_iff.
    destruct (decide ((a, v) = ("rel", Some "internal"))) as [E|E].
    + rewrite bool_decide_eq_true_2 by exact E. rewrite E.
      symmetry; apply bool_decide_eq_true_2, elem_of_cons; left; reflexivity.
    + rewrite bool_decide_eq_false_2 by exact E. rewrite IH.
      apply bool_decide_ext. rewrite elem_of_cons. split; [auto|].
      intros [H|H]; [congruence|exact H].
Qed.

Lemma handle_starttag_eq urljoin base ls t attrs :
  handle_starttag urljoin base ls t attrs =
  match resolve_all urljoin base (anchor_hrefs (t, attrs)) with
  | Ok us => Ok (ls ++ us)
  | Err e => Err e
  end.
Proof.
  unfold handle_starttag, anchor_hrefs. rewrite <- has_rel_internal_spec.
  destruct (String.eqb t "a"); cbn [negb andb]; [|simpl; rewrite app_nil_r; reflexivity].
  destruct attrs as [|a0 attrs']; [simpl; rewrite app_nil_r; reflexivity|].
  destruct (has_rel_internal (a0 :: attrs')); cbn [negb].
  - apply fold_hrefs.
  - simpl; rewrite app_nil_r; reflexivity.
Qed.

Lemma resolve_all_app urljoin base (a b : list (option string)) :
  resolve_all urljoin base (a ++ b) =
  match resolve_all urljoin base a with
  | Err e => Err e
  | Ok us => match resolve_all urljoin base b with Ok vs => Ok (us ++ vs) | Err e => Err e end
  end.
Proof.
  induction a as [|v a IH]; simpl.
  - destruct (resolve_all _ _ b); reflexivity.
  - destruct (urljoin base v); [|reflexivity]. rewrite IH.
    destruct (resolve_all _ _ a); [|reflexivity].
    destruct (resolve_all _ _ b); reflexivity.
Qed.

Lemma extract_links_eq urljoin base (doc : list starttag) :
  extract_links urljoin base doc = resolve_all urljoin base (flat_map anchor_hrefs doc).
Proof.
  unfold extract_links.
  assert (E : forall e, fold_left (fun acc '(t, a) =>
                                     match acc with
                                     | Ok ls => handle_starttag urljoin base ls t a
                                     | Err e => Err e
                                     end) doc (Err e) = Err e).
  { clear. induction doc as [|[t a] doc IH]; simpl; auto. }
  assert (G : forall acc, fold_left (fun acc '(t, a) =>
                                       match acc with
                                       | Ok ls => handle_starttag urljoin base ls t a
                                       | Err e => Err e
                                       end) doc (Ok acc)
                          = match resolve_all urljoin base (flat_map anchor_hrefs doc) with
                            | Ok us => Ok (acc ++ us)
                            | Err e => Err e
                            end).
  { clear E. induction doc as [|[t a] doc IH]; intros acc; cbn [fold_left flat_map].
    - cbn. rewrite app_nil_r; reflexivity.
    - rewrite handle_starttag_eq, resolve_all_app.
      destruct (resolve_all urljoin base (anchor_hrefs (t, a))) as [us|e].
      + rewrite IH. destruct (resolve_all urljoin base (flat_map anchor_hrefs doc)); [|reflexivity].
        rewrite app_assoc. reflexivity.
      + clear IH. induction doc as [|[t' a'] doc IH']; cbn [fold_left]; auto. }
  rewrite G. destruct (resolve_all _ _ _); reflexivity.
Qed.

Lemma resolve_all_err urljoin base vs e : resolve_all urljoin base vs = Err e -> e = ValueError.
Proof.
  induction vs as [|v vs IH]; simpl; [discriminate|].
  destruct (urljoin base v); [|congruence].
  destruct (resolve_all _ _ vs); [discriminate|]. intros H; inversion H; subst; auto.
Qed.

Lemma resolve_all_In urljoin base vs us :
  resolve_all urljoin base vs = Ok us ->
  forall u, In u us <-> exists v, In v vs /\ urljoin base v = Some u.
Proof.
  revert us; induction vs as [|v vs IH]; intros us H u; simpl in H.
  - inversion H; subst. simpl. split; [intros []|intros (? & [] & _)].
  - destruct (urljoin base v) as [u0|] eqn:Ev; [|discriminate].
    destruct (resolve_all _ _ vs) as [us'|e]; [|discriminate].
    inversion H; subst; clear H. specialize (IH us' eq_refl u). simpl. split.
    + intros [<-|Hin]; [exists v; auto|]. apply IH in Hin as (v' & ? & ?). exists v'; auto.
    + intros (v' & [<-|Hin] & Hu); [left; congruence|]. right. apply IH. eauto.
Qed.

Lemma resolve_all_total urljoin base vs :
  (forall v, In v vs -> exists u, urljoin base v = Some u) ->
  exists us, resolve_all urljoin base vs = Ok us.
Proof.
  induction vs as [|v vs IH]; intros H; simpl; [eauto|].
  destruct (H v (or_introl eq_refl)) as [u ->].
  destruct IH as [us ->]; [intros; apply H; simpl; auto|]. eauto.
Qed.

Lemma In_anchor_hrefs (t : starttag) v :
  In v (anchor_hrefs t) <->
  fst t = "a" /\ In ("rel", Some "internal") (snd t) /\ In ("href", v) (snd t).
Proof.
  destruct t as [tag attrs]; unfold anchor_hrefs; simpl.
  destruct (String.eqb tag "a") eqn:Et;
    [apply String.eqb_eq in Et | apply String.eqb_neq in Et]; simpl.
  - destruct (bool_decide (("rel", Some "internal") ∈ attrs)) eqn:Eb.
    + apply bool_decide_eq_true in Eb. rewrite list_elem_of_In in Eb.
      rewrite in_map_iff. split.
      * intros ([n v'] & Hu & Hin). apply filter_In in Hin as [Hin Hn].
        apply String.eqb_eq in Hn. simpl in Hu. subst. auto.
      * intros (_ & _ & Hin). exists ("href", v). split; [reflexivity|].
        apply filter_In. split; [exact Hin|]. apply String.eqb_refl.
    + apply bool_decide_eq_false in Eb. rewrite list_elem_of_In in Eb. split; [intros []|].
      intros (_ & Hr & _). contradiction.
  - split; [intros []|]. intros (Ht & _). contradiction.
Qed.

Lemma In_doc_hrefs (doc : list starttag) v :
  In v (flat_map anchor_hrefs doc) <->
  exists attrs, In ("a", attrs) doc /\ In ("rel", Some "internal") attrs /\ In ("href", v) attrs.
Proof.
  rewrite in_flat_map. split.
  - intros ([tag attrs] & Hin & Hv). apply In_anchor_hrefs in Hv as (Ht & Hr & Hh).
    simpl in *; subst. eauto.
  - intros (attrs & Hin & Hr & Hh). exists ("a", attrs). split; [exact Hin|].
    apply In_anchor_hrefs. auto.
Qed.

End ExtractorFacts.

(* ------------------------------------------------------------------ *)
(** ** The cache path                                                  *)
(* ------------------------------------------------------------------ *)

Module PathFacts.
Import Py Installer Helpers.

Lemma chars_app (a b : string) : chars (a ++ b) = chars a ++ chars b.
Proof. induction a as [|c a IH]; simpl; [reflexivity|]. unfold chars in *. simpl. rewrite IH. reflexivity. Qed.

Lemma str_chars (s : string) : str (chars s) = s.
Proof. apply string_of_list_ascii_of_string. Qed.

Lemma chars_str (l : list ascii) : chars (str l) = l.
Proof. apply list_ascii_of_string_of_list_ascii. Qed.

Lemma hex_char_not_slash n : Sha256.hex_char n <> slash.
Proof.
  unfold Sha256.hex_char.
  destruct (nth_in_or_default (Z.to_nat n) (chars "0123456789abcdef") "0"%char) as [H|H].
  - intros E; rewrite E in H. simpl in H.
    repeat (destruct H as [H|H]; [discriminate H|]). destruct H.
  - rewrite H. discriminate.
Qed.

Lemma digest_length m : length (Sha256.digest m) = 32%nat.
Proof. reflexivity. Qed.

Lemma hexdigest_chars bs :
  length (chars (Sha256.hexdigest bs)) = (2 * length bs)%nat /\
  Forall (fun c => c <> slash) (chars (Sha256.hexdigest bs)).
Proof.
  unfold Sha256.hexdigest. rewrite chars_str.
  induction bs as [|b bs [IHl IHf]]; simpl; [split; [reflexivity|constructor]|].
  split; [lia|]. repeat constructor; try apply hex_char_not_slash; exact IHf.
Qed.

(** The cache key: 64 characters, none of them a slash. *)
Lemma cache_key_shape c :
  length (chars (cache_key c)) = 64%nat /\ Forall (fun x => x <> slash) (chars (cache_key c)).
Proof.
  unfold cache_key. destruct (hexdigest_chars (Sha256.digest (utf8 (c_url c)))) as [H1 H2].
  rewrite digest_length in H1. split; assumption.
Qed.

Lemma endswith_slash_app a b :
  chars b <> [] -> Forall (fun x => x <> slash) (chars b) -> endswith (a ++ b) "/" = false.
Proof.
  intros Hne Hf. unfold endswith. rewrite chars_app, rev_app_distr.
  destruct (rev (chars b)) as [|x r] eqn:E.
  - exfalso; apply Hne. rewrite <- (rev_involutive (chars b)), E. reflexivity.
  - change (rev (chars "/")) with [slash]. cbn [lprefix app].
    assert (x <> slash).
    { rewrite List.Forall_forall in Hf. apply Hf. apply in_rev. rewrite E. left; reflexivity. }
    destruct (Ascii.eqb slash x) eqn:Ex; [|reflexivity].
    apply Ascii.eqb_eq in Ex. subst. contradiction.
Qed.

Lemma startswith_slash_nil_free b :
  Forall (fun x => x <> slash) (chars b) -> startswith b "/" = false.
Proof.
  unfold startswith. destruct (chars b) as [|x r]; [reflexivity|].
  intros Hf; inversion Hf; subst. change (chars "/") with [slash]. cbn [lprefix].
  destruct (Ascii.eqb slash x) eqn:Ex; [|reflexivity].
  apply Ascii.eqb_eq in Ex. subst. contradiction.
Qed.

Lemma join2_plain a b :
  plain_root a -> startswith b "/" = false -> join2 a b = (a ++ "/" ++ b)%string.
Proof.
  intros [Hne He] Hs. unfold join2. rewrite Hs, He.
  destruct (String.eqb a "") eqn:E; [apply String.eqb_eq in E; contradiction|reflexivity].
Qed.

Lemma str_append_assoc (a b c : string) : (a ++ (b ++ c))%string = ((a ++ b) ++ c)%string.
Proof.
  rewrite <- (str_chars (a ++ (b ++ c))), <- (str_chars ((a ++ b) ++ c)).
  rewrite !chars_app, app_assoc. reflexivity.
Qed.

(** [os.path.join(root, key, filename)] is [root/key/filename]. *)
Lemma cache_path_shape self c :
  plain_root (cache_dir self) -> startswith (c_filename c) "/" = false ->
  cache_path self c = (cache_dir self ++ "/" ++ (cache_key c ++ "/" ++ c_filename c))%string.
Proof.
  intros Hr Hf. destruct (cache_key_shape c) as [Hl Hk].
  unfold cache_path, join3.
  rewrite (join2_plain (cache_dir self) (cache_key c)) by (auto using startswith_slash_nil_free).
  rewrite (join2_plain _ (c_filename c)).
  - rewrite !str_append_assoc. reflexivity.
  - split.
    + destruct Hr as [Hne _]. destruct (cache_dir self); [contradiction|discriminate].
    + rewrite str_append_assoc. apply endswith_slash_app; [|exact Hk].
      intros E; rewrite E in Hl; discriminate.
  - exact Hf.
Qed.

Lemma append_cancel_r (a b s : string) : (a ++ s)%string = (b ++ s)%string -> a = b.
Proof.
  intros E. apply (f_equal chars) in E. rewrite !chars_app in E.
  apply app_inv_tail in E. rewrite <- (str_chars a), <- (str_chars b), E. reflexivity.
Qed.

End PathFacts.

(* ------------------------------------------------------------------ *)
(** ** download and install                                            *)
(* ------------------------------------------------------------------ *)

Module DownloadFacts.
Import Py Installer Helpers.

Lemma files_emit w e : files (emit w e) = files w.
Proof. reflexivity. Qed.

Lemma dirs_emit w e : dirs (emit w e) = dirs w.
Proof. reflexivity. Qed.

Lemma log_emit w e : log (emit w e) = log w ++ [e].
Proof. reflexivity. Qed.

Lemma makedirs_ok d w w' :
  makedirs d w = (Ok tt, w') ->
  files w' = files w /\ log w' = log w ++ [EvMakedirs d] /\ d ∈ dirs w'.
Proof.
  unfold makedirs.
  destruct (is_file w d || is_dir w d); [discriminate|].
  destruct (existsb _ _); [discriminate|].
  intros H; inversion H; subst; clear H. cbn. split; [reflexivity|]. split; [reflexivity|].
  set_solver.
Qed.

Lemma makedirs_err d w e w' : makedirs d w = (Err e, w') -> w' = w /\ (e = FileExistsError \/ e = NotADirectoryError).
Proof.
  unfold makedirs.
  destruct (is_file w d || is_dir w d); [intros H; inversion H; auto|].
  destruct (existsb _ _); intros H; inversion H; auto.
Qed.

Lemma write_file_ok p data w w' :
  write_file p data w = (Ok tt, w') ->
  files w' = <[p := data]> (files w) /\ log w' = log w ++ [EvWrite p] /\ dirs w' = dirs w.
Proof.
  unfold write_file.
  destruct (is_dir w p); [discriminate|].
  destruct (String.eqb (dirname p) "" || is_dir w (dirname p)).
  - intros H; inversion H; subst; auto.
  - destruct (is_file w (dirname p)); discriminate.
Qed.

Lemma write_file_err p data w e w' :
  write_file p data w = (Err e, w') ->
  w' = w /\ (e = IsADirectoryError \/ e = NotADirectoryError \/ e = FileNotFoundError).
Proof.
  unfold write_file.
  destruct (is_dir w p); [intros H; inversion H; auto|].
  destruct (String.eqb (dirname p) "" || is_dir w (dirname p)); [discriminate|].
  destruct (is_file w (dirname p)); intros H; inversion H; auto.
Qed.

(** [download] on a path that exists: no effect at all. *)
Lemma download_hit server self c w :
  (is_file w (cache_path self c) || is_dir w (cache_path self c)) = true ->
  download server self c w = (Ok (cache_path self c), w).
Proof.
  intros H. cbv beta iota zeta delta [download bind path_exists ret].
  change (join3 (cache_dir self) (cache_key c) (c_filename c)) with (cache_path self c).
  rewrite H. reflexivity.
Qed.

(** [download] on a missing path. *)
Lemma download_miss server self c w :
  (is_file w (cache_path self c) || is_dir w (cache_path self c)) = false ->
  download server self c w =
  (let p := cache_path self c in
   let resp := server (c_url c) in
   let w1 := emit w (EvGet (c_url c)) in
   if is_http_error (status_code resp) then (Err (HTTPError (status_code resp)), w1)
   else
     let '(r2, w2) := if is_file w1 (dirname p) || is_dir w1 (dirname p) then (Ok tt, w1)
                      else makedirs (dirname p) w1 in
     match r2 with
     | Err e => (Err e, w2)
     | Ok _ =>
         let '(r3, w3) := write_file p (content resp) w2 in
         match r3 with Err e => (Err e, w3) | Ok _ => (Ok p, w3) end
     end).
Proof.
  intros H. cbv beta iota zeta delta [download bind path_exists ret].
  change (join3 (cache_dir self) (cache_key c) (c_filename c)) with (cache_path self c).
  rewrite H. cbv beta iota zeta delta [session_get raise_for_status is_http_error raise ret].
  destruct (_ && _); cbv beta iota; [reflexivity|].
  destruct (is_file _ (dirname (cache_path self c)) || is_dir _ (dirname (cache_path self c)));
    cbv beta iota.
  - destruct (write_file _ _ _) as [[[]|] ?]; reflexivity.
  - destruct (makedirs _ _) as [[[]|] ?]; [|reflexivity].
    destruct (write_file _ _ _) as [[[]|] ?]; reflexivity.
Qed.

(** A successful [download] on a missing path: the response body is
    written at the cache path, after one GET and at most one [makedirs]. *)
Lemma download_miss_ok server self c w p w' :
  (is_file w (cache_path self c) || is_dir w (cache_path self c)) = false ->
  download server self c w = (Ok p, w') ->
  p = cache_path self c /\
  files w' = <[cache_path self c := content (server (c_url c))]> (files w) /\
  is_http_error (status_code (server (c_url c))) = false /\
  exists mk, (mk = [] \/ mk = [EvMakedirs (dirname (cache_path self c))]) /\
             log w' = log w ++ EvGet (c_url c) :: mk ++ [EvWrite (cache_path self c)].
Proof.
  intros Hm. rewrite (download_miss server self c w Hm). cbv zeta.
  destruct (is_http_error _) eqn:Eh; [discriminate|].
  destruct (is_file _ (dirname (cache_path self c)) || is_dir _ (dirname (cache_path self c))).
  - destruct (write_file _ _ _) as [[[]|] w3] eqn:Ew; [|discriminate].
    intros H; inversion H; subst; clear H.
    apply write_file_ok in Ew as (Hf & Hl & _).
    split; [reflexivity|]. split; [exact Hf|]. split; [reflexivity|].
    exists []. split; [left; reflexivity|]. rewrite Hl. simpl. rewrite <- app_assoc. reflexivity.
  - destruct (makedirs _ _) as [[[]|] w2] eqn:Em; [|discriminate].
    destruct (write_file _ _ _) as [[[]|] w3] eqn:Ew; [|discriminate].
    intros H; inversion H; subst; clear H.
    apply makedirs_ok in Em as (Hf2 & Hl2 & _). apply write_file_ok in Ew as (Hf & Hl & _).
    split; [reflexivity|]. split; [rewrite Hf, Hf2; reflexivity|]. split; [reflexivity|].
    eexists. split; [right; reflexivity|]. rewrite Hl, Hl2. simpl. rewrite <- !app_assoc. reflexivity.
Qed.

(** A successful [download] returns the cache path, which then exists. *)
Lemma download_ok server self c w p w' :
  download server self c w = (Ok p, w') ->
  p = cache_path self c /\
  (is_file w' (cache_path self c) || is_dir w' (cache_path self c)) = true.
Proof.
  destruct (is_file w (cache_path self c) || is_dir w (cache_path self c)) eqn:Ex.
  - rewrite (download_hit server self c w Ex). intros H; inversion H; subst; auto.
  - intros H. destruct (download_miss_ok server self c w p w' Ex H) as (Hp & Hf & _).
    split; [exact Hp|]. unfold is_file. rewrite Hf, lookup_insert_eq. reflexivity.
Qed.

(** Whatever it returns, [download] runs no child process. *)
Lemma download_log server self c w r w' :
  download server self c w = (r, w') ->
  exists evs, log w' = log w ++ evs /\ Forall (fun e => is_exec e = false) evs.
Proof.
  destruct (is_file w (cache_path self c) || is_dir w (cache_path self c)) eqn:Ex.
  - rewrite (download_hit server self c w Ex). intros H; inversion H; subst.
    exists []. rewrite app_nil_r. auto.
  - rewrite (download_miss server self c w Ex). cbv zeta.
    destruct (is_http_error _).
    { intros H; inversion H; subst. exists [EvGet (c_url c)]. auto. }
    assert (Hmk : exists evs, log (snd (if is_file (emit w (EvGet (c_url c))) (dirname (cache_path self c))
                                   || is_dir (emit w (EvGet (c_url c))) (dirname (cache_path self c))
                               then (Ok tt, emit w (EvGet (c_url c)))
                               else makedirs (dirname (cache_path self c)) (emit w (EvGet (c_url c)))))
                  = log w ++ evs /\ Forall (fun e => is_exec e = false) evs).
    { destruct (is_file _ (dirname (cache_path self c)) || is_dir _ (dirname (cache_path self c)));
        simpl.
      - exists [EvGet (c_url c)]. auto.
      - destruct (makedirs _ _) as [[[]|e] w2] eqn:Em; simpl.
        + apply makedirs_ok in Em as (_ & Hl & _). rewrite Hl.
          exists [EvGet (c_url c); EvMakedirs (dirname (cache_path self c))].
          simpl. rewrite <- app_assoc. auto.
        + apply makedirs_err in Em as [-> _]. exists [EvGet (c_url c)]. auto. }
    match goal with |- match ?m with _ => _ end = _ -> _ => destruct m as [r2 w2] end.
    simpl in Hmk. destruct Hmk as (evs & Hl & Hf).
    destruct r2 as [[]|e].
    + destruct (write_file _ _ _) as [[[]|e] w3] eqn:Ew; intros H; inversion H; subst; clear H.
      * apply write_file_ok in Ew as (_ & Hl3 & _). exists (evs ++ [EvWrite (cache_path self c)]).
        rewrite Hl3, Hl, app_assoc. split; [reflexivity|]. apply Forall_app; auto.
      * apply write_file_err in Ew as [-> _]. eauto.
    + intros H; inversion H; subst. eauto.
Qed.

(** [download] raises HTTP and file-system errors only. *)
Lemma download_err server self c w e w' :
  download server self c w = (Err e, w') -> forall rc, e <> CalledProcessError rc.
Proof.
  intros H rc ->.
  destruct (is_file w (cache_path self c) || is_dir w (cache_path self c)) eqn:Ex.
  - rewrite (download_hit server self c w Ex) in H. discriminate.
  - rewrite (download_miss server self c w Ex) in H. cbv zeta in H.
    destruct (is_http_error _); [discriminate|].
    match type of H with match ?m with _ => _ end = _ => destruct m as [[[]|e] w2] eqn:E2 end.
    + destruct (write_file _ _ _) as [[[]|e] w3] eqn:Ew; [discriminate|].
      inversion H; subst. apply write_file_err in Ew as [_ Hk]. intuition discriminate.
    + inversion H; subst.
      destruct (is_file _ (dirname (cache_path self c)) || is_dir _ (dirname (cache_path self c)));
        [discriminate|]. apply makedirs_err in E2 as [_ Hk]. intuition discriminate.
Qed.

End DownloadFacts.

Module InstallFacts.
Import Py Installer Helpers FindFacts ExtractorFacts DownloadFacts.

Lemma select_err links e : select links = Err e -> e = IndexError \/ e = NoAcceptableFile.
Proof.
  unfold select. destruct (collect links) as [[|c cs]|e'] eqn:Ec.
  - intros H; inversion H; auto.
  - destruct (sorted_reverse (c :: cs)); intros H; inversion H; auto.
  - intros H; inversion H; subst. left. eapply collect_err; eauto.
Qed.

(** [find] performs at most one GET and raises no process error. *)
Lemma find_world urljoin server idx w r w' :
  find urljoin server idx w = (r, w') ->
  (exists evs, log w' = log w ++ evs /\ Forall (fun e => is_exec e = false) evs) /\
  forall e rc, r = Err e -> e <> CalledProcessError rc.
Proof.
  rewrite find_eq.
  destruct (urljoin idx (Some "pip/")) as [simple|].
  2:{ intros H; inversion H; subst; clear H. split.
      - exists []. rewrite app_nil_r. split; [reflexivity|constructor].
      - intros e rc He; inversion He; discriminate. }
  cbv zeta.
  assert (Hl : exists evs, log (emit w (EvGet simple)) = log w ++ evs /\
                           Forall (fun e => is_exec e = false) evs)
    by (exists [EvGet simple]; split; [reflexivity|repeat constructor]).
  destruct (is_http_error _); intros H; inversion H; subst; clear H.
  - split; [exact Hl|]. intros e rc He; inversion He; discriminate.
  - split; [exact Hl|]. intros e rc He ->.
    destruct (extract_links _ _ _) as [links|e'] eqn:Ex.
    + apply select_err in He as [|]; discriminate.
    + inversion He; subst. rewrite extract_links_eq in Ex.
      apply resolve_all_err in Ex. discriminate.
Qed.

Lemma install_eq urljoin server run self w :
  install urljoin server run self w =
  match find urljoin server default_index w with
  | (Err e, w1) => (Err e, w1)
  | (Ok c, w1) =>
      match download server self c w1 with
      | (Err e, w2) => (Err e, w2)
      | (Ok p, w2) =>
          check_call run (inv_args (install_invocation self p))
                     (inv_env (install_invocation self p)) w2
      end
  end.
Proof. reflexivity. Qed.

End InstallFacts.

(* ------------------------------------------------------------------ *)
(** ** The specification's claims                                      *)
(* ------------------------------------------------------------------ *)

Module Claims.
Import Py Installer Helpers Examples OrderFacts SortFacts FindFacts ExtractorFacts
       PathFacts DownloadFacts InstallFacts.

(** C1: the page lists [pip-2.0.0-py3-none-any.whl], whose token [2.0.0]
    is a PEP 440 version, and a stray [pip.whl].  [find] does not return
    the [2.0.0] candidate: it raises [IndexError] on [pip.whl]. *)
Theorem find_stray_wheel_index_error :
  PkgVersion.match_version "2.0.0" <> None /\
  fst (find uj (index_server stray_page) default_index empty_world) = Err IndexError.
Proof. split; vm_compute; [discriminate|reflexivity]. Qed.




(** C3 (counterexample): an [a] tag with [rel="internal"] whose [href]
    is ["http://[::1/x"], an unclosed IPv6 bracket, makes [urljoin] and so
    the extractor raise [ValueError]: there is no output, and [find] on a
    page made of that tag raises [ValueError]. *)
Lemma extract_links_invalid_ipv6 :
  uj simple_url (Some "http://[::1/x") = None /\
  extract_links uj simple_url ipv6_doc = Err ValueError /\
  fst (find uj ipv6_server default_index empty_world) = Err ValueError.
Proof. vm_compute. repeat split. Qed.

(** C3 (amended): the extractor resolves against the base URL, in
    document order, the [href] values of the [a] tags that carry an
    attribute [rel="internal"], and raises [ValueError] at the first one
    [urljoin] rejects.  When it returns, a URL is in its output exactly
    when such a tag has an [href] that [urljoin] resolves to that URL;
    when [urljoin] accepts every such [href], it returns. *)
Theorem extract_links_resolved urljoin base (doc : list starttag) :
  extract_links urljoin base doc = resolve_all urljoin base (flat_map anchor_hrefs doc) /\
  (forall links, extract_links urljoin base doc = Ok links ->
     forall u, In u links <->
       exists attrs v, In ("a", attrs) doc /\ In ("rel", Some "internal") attrs /\
                       In ("href", v) attrs /\ urljoin base v = Some u) /\
  ((forall attrs v, In ("a", attrs) doc -> In ("rel", Some "internal") attrs ->
                    In ("href", v) attrs -> exists u, urljoin base v = Some u) ->
   exists links, extract_links urljoin base doc = Ok links).
Proof.
  rewrite extract_links_eq. split; [reflexivity|]. split.
  - intros links H u. rewrite (resolve_all_In _ _ _ _ H u). split.
    + intros (v & Hv & Hu). apply In_doc_hrefs in Hv as (attrs & Ha & Hr & Hh).
      exists attrs, v. auto.
    + intros (attrs & v & Ha & Hr & Hh & Hu). exists v.
      split; [apply In_doc_hrefs; exists attrs; auto|exact Hu].
  - intros H. apply resolve_all_total. intros v Hv.
    apply In_doc_hrefs in Hv as (attrs & Ha & Hr & Hh). eauto.
Qed.

(** C9: a [".whl"] link without a hyphen makes [find] raise [IndexError]
    (here on a page listing only [pip.whl]); [select] raises
    [IndexError] exactly when some wheel link has no hyphen. *)
Theorem find_hyphenless_wheel_index_error :
  fst (find uj (index_server bare_page) default_index empty_world) = Err IndexError /\
  (forall links, select links = Err IndexError <->
     exists l, In l links /\ is_wheel_link l = true /\ hyphenated l = false).
Proof. split; [vm_compute; reflexivity|]. intros links. apply select_index_error. Qed.

(** C10: whatever the body does, returning or raising, leaving the
    [with PipInstaller(...)] block closes the session opened by the
    constructor, as the last effect; the body's outcome is the block's. *)
Theorem with_installer_closes {A} env cache (body : PipInstaller -> M A) w :
  let sid := next_sid w in
  let inst := mkPipInstaller env cache sid in
  let w0 := snd (new_installer env cache w) in
  sessions w0 !! sid = Some true /\
  fst (with_installer env cache body w) = fst (body inst w0) /\
  sessions (snd (with_installer env cache body w)) !! sid = Some false /\
  log (snd (with_installer env cache body w)) = log (snd (body inst w0)) ++ [EvSessionClose sid].
Proof.
  intros sid inst w0.
  unfold with_installer, bind, enter, ret, exit, close.
  change (new_installer env cache w) with (Ok inst, w0).
  split; [apply lookup_insert_eq|].
  destruct (body inst w0) as [r1 w1]. simpl.
  split; [reflexivity|]. split; [apply lookup_insert_eq|reflexivity].
Qed.

(** C4: two [download] calls for the same candidate on a fresh cache.
    The first does one GET, at most one [makedirs] and one write, and
    stores the response body at the cache path.  The second returns the
    same path and leaves the world unchanged: no GET, no [makedirs], no
    write. *)
Theorem download_twice server self c w p w1 :
  is_file w (cache_path self c) = false -> is_dir w (cache_path self c) = false ->
  download server self c w = (Ok p, w1) ->
  p = cache_path self c /\
  files w1 !! p = Some (content (server (c_url c))) /\
  (exists mk, (mk = [] \/ mk = [EvMakedirs (dirname p)]) /\
              log w1 = log w ++ EvGet (c_url c) :: mk ++ [EvWrite p]) /\
  download server self c w1 = (Ok p, w1).
Proof.
  intros Hf Hd H.
  assert (Hm : (is_file w (cache_path self c) || is_dir w (cache_path self c)) = false)
    by (rewrite Hf, Hd; reflexivity).
  destruct (download_miss_ok server self c w p w1 Hm H) as (-> & Hfiles & _ & Hlog).
  split; [reflexivity|].
  assert (Hl : files w1 !! cache_path self c = Some (content (server (c_url c))))
    by (rewrite Hfiles; apply lookup_insert_eq).
  split; [exact Hl|]. split; [exact Hlog|].
  apply download_hit. unfold is_file. rewrite Hl. reflexivity.
Qed.

Lemma download_twice_witness :
  let server := index_server spec_page in
  let w1 := snd (download server inst wheel empty_world) in
  let p := cache_path inst wheel in
  (is_file empty_world p = false /\ is_dir empty_world p = false /\
   download server inst wheel empty_world = (Ok p, w1)) /\
  (p = cache_path inst wheel /\
   files w1 !! p = Some (content (server (c_url wheel))) /\
   (exists mk, (mk = [] \/ mk = [EvMakedirs (dirname p)]) /\
               log w1 = log empty_world ++ EvGet (c_url wheel) :: mk ++ [EvWrite p]) /\
   download server inst wheel w1 = (Ok p, w1)).
Proof.
  intros server w1 p.
  assert (H1 : is_file empty_world p = false) by (vm_compute; reflexivity).
  assert (H2 : is_dir empty_world p = false) by (vm_compute; reflexivity).
  assert (H3 : download server inst wheel empty_world = (Ok p, w1)) by (vm_compute; reflexivity).
  split; [split; [exact H1|split; [exact H2|exact H3]]|].
  exact (download_twice server inst wheel empty_world p w1 H1 H2 H3).
Defined.

(** C5: the cache key is the hex SHA-256 of the URL's UTF-8 bytes, and
    under a root that is nonempty and does not end in a slash, the cache
    path is [root/key/filename] (the filename not starting with a slash,
    as no basename does).  The relative part [key/filename] is the same
    under every root; distinct roots give distinct paths; [download]
    returns this path whenever it returns. *)
Theorem cache_path_layout (self1 self2 : PipInstaller) (c : Candidate) :
  plain_root (cache_dir self1) -> plain_root (cache_dir self2) ->
  startswith (c_filename c) "/" = false ->
  let rel := (cache_key c ++ "/" ++ c_filename c)%string in
  cache_key c = Sha256.hexdigest (Sha256.digest (utf8 (c_url c))) /\
  cache_path self1 c = (cache_dir self1 ++ "/" ++ rel)%string /\
  cache_path self2 c = (cache_dir self2 ++ "/" ++ rel)%string /\
  (cache_dir self1 <> cache_dir self2 -> cache_path self1 c <> cache_path self2 c) /\
  (forall server w p w', download server self1 c w = (Ok p, w') -> p = cache_path self1 c).
Proof.
  intros H1 H2 Hf rel.
  split; [reflexivity|].
  rewrite (cache_path_shape self1 c H1 Hf), (cache_path_shape self2 c H2 Hf).
  split; [reflexivity|]. split; [reflexivity|]. split.
  - intros Hne E. apply Hne. rewrite !str_append_assoc in E.
    do 4 apply append_cancel_r in E. exact E.
  - intros server w p w' H. apply download_ok in H as [-> _].
    apply cache_path_shape; assumption.
Qed.

Lemma cache_path_layout_witness :
  let self2 := mkPipInstaller "/env" "/d" 0 in
  let rel := (cache_key wheel ++ "/" ++ c_filename wheel)%string in
  (plain_root (cache_dir inst) /\ plain_root (cache_dir self2) /\
   startswith (c_filename wheel) "/" = false) /\
  cache_key wheel = Sha256.hexdigest (Sha256.digest (utf8 (c_url wheel))) /\
  cache_path inst wheel = (cache_dir inst ++ "/" ++ rel)%string /\
  cache_path self2 wheel = (cache_dir self2 ++ "/" ++ rel)%string /\
  (cache_dir inst <> cache_dir self2 -> cache_path inst wheel <> cache_path self2 wheel) /\
  (forall server w p w', download server inst wheel w = (Ok p, w') -> p = cache_path inst wheel).
Proof.
  intros self2 rel.
  assert (H1 : plain_root (cache_dir inst)) by (split; [discriminate|vm_compute; reflexivity]).
  assert (H2 : plain_root (cache_dir self2)) by (split; [discriminate|vm_compute; reflexivity]).
  assert (H3 : startswith (c_filename wheel) "/" = false) by (vm_compute; reflexivity).
  split; [auto|]. exact (cache_path_layout inst self2 wheel H1 H2 H3).
Defined.

(** C6 (counterexample): on a cache miss, a [304] answer (not 2xx) does
    not make [download] fail: it returns the cache path, after creating
    the key directory and writing the empty body there. *)
Lemma download_not_modified_written :
  let r := download (status_server 304) inst wheel empty_world in
  fst r = Ok (cache_path inst wheel) /\
  files (snd r) !! cache_path inst wheel = Some [] /\
  is_dir empty_world (dirname (cache_path inst wheel)) = false /\
  is_dir (snd r) (dirname (cache_path inst wheel)) = true.
Proof. vm_compute. repeat split. Qed.

(** C6 (amended): on a cache miss, [download] raises [HTTPError] exactly
    when the status of the GET is in [400, 600); it then raises before
    any [makedirs] or write, so files and directories are unchanged. *)
Theorem download_http_error server self c w :
  (is_file w (cache_path self c) || is_dir w (cache_path self c)) = false ->
  let s := status_code (server (c_url c)) in
  ((exists s', fst (download server self c w) = Err (HTTPError s')) <-> is_http_error s = true) /\
  (is_http_error s = true ->
   download server self c w = (Err (HTTPError s), emit w (EvGet (c_url c))) /\
   files (snd (download server self c w)) = files w /\
   dirs (snd (download server self c w)) = dirs w).
Proof.
  intros Hm s. rewrite (download_miss server self c w Hm). cbv zeta. fold s.
  destruct (is_http_error s) eqn:Eh.
  - split; [split; [reflexivity|intros _; exists s; reflexivity]|].
    intros _. split; [reflexivity|]. split; reflexivity.
  - split; [|discriminate]. split; [|discriminate]. intros (s' & H).
    match type of H with fst (match ?m with _ => _ end) = _ => destruct m as [[[]|e] w2] eqn:E2 end.
    + destruct (write_file _ _ _) as [[[]|e] w3] eqn:Ew; [discriminate|].
      simpl in H; inversion H; subst e. apply write_file_err in Ew as [_ Hk]. intuition discriminate.
    + simpl in H; inversion H; subst e.
      destruct (is_file _ (dirname (cache_path self c)) || is_dir _ (dirname (cache_path self c)));
        [discriminate|]. apply makedirs_err in E2 as [_ Hk]. intuition discriminate.
Qed.

Lemma download_http_error_witness :
  let server := status_server 404 in
  let s := status_code (server (c_url wheel)) in
  (is_file empty_world (cache_path inst wheel) || is_dir empty_world (cache_path inst wheel)) = false /\
  ((exists s', fst (download server inst wheel empty_world) = Err (HTTPError s')) <->
   is_http_error s = true) /\
  (is_http_error s = true ->
   download server inst wheel empty_world = (Err (HTTPError s), emit empty_world (EvGet (c_url wheel))) /\
   files (snd (download server inst wheel empty_world)) = files empty_world /\
   dirs (snd (download server inst wheel empty_world)) = dirs empty_world).
Proof.
  intros server s.
  assert (Hm : (is_file empty_world (cache_path inst wheel)
                || is_dir empty_world (cache_path inst wheel)) = false) by (vm_compute; reflexivity).
  split; [exact Hm|]. exact (download_http_error server inst wheel empty_world Hm).
Defined.

(** C7 (counterexample): with a directory at the cache path, [download]
    returns that path at once, and no file exists there. *)
Lemma download_directory_returned :
  download (index_server spec_page) inst wheel dir_world = (Ok (cache_path inst wheel), dir_world) /\
  is_file dir_world (cache_path inst wheel) = false.
Proof. split; [apply download_hit|]; vm_compute; reflexivity. Qed.

(** C7 (amended): when [download] returns, it returns the cache path,
    which exists as a file or a directory.  If nothing existed there
    before, it is now a file holding the response body; otherwise the
    world is unchanged. *)
Theorem download_result server self c w p w' :
  download server self c w = (Ok p, w') ->
  p = cache_path self c /\
  (is_file w' p || is_dir w' p) = true /\
  ((is_file w p || is_dir w p) = false -> files w' !! p = Some (content (server (c_url c)))) /\
  ((is_file w p || is_dir w p) = true -> w' = w).
Proof.
  intros H. destruct (download_ok server self c w p w' H) as [-> He].
  split; [reflexivity|]. split; [exact He|]. split.
  - intros Hm. destruct (download_miss_ok server self c w _ w' Hm H) as (_ & Hf & _).
    rewrite Hf. apply lookup_insert_eq.
  - intros Hx. rewrite (download_hit server self c w Hx) in H. inversion H; reflexivity.
Qed.

Lemma download_result_witness :
  let server := index_server spec_page in
  let p := cache_path inst wheel in
  let w' := snd (download server inst wheel empty_world) in
  download server inst wheel empty_world = (Ok p, w') /\
  (p = cache_path inst wheel /\
   (is_file w' p || is_dir w' p) = true /\
   ((is_file empty_world p || is_dir empty_world p) = false ->
    files w' !! p = Some (content (server (c_url wheel)))) /\
   ((is_file empty_world p || is_dir empty_world p) = true -> w' = empty_world)).
Proof.
  intros server p w'.
  assert (H : download server inst wheel empty_world = (Ok p, w')) by (vm_compute; reflexivity).
  split; [exact H|]. exact (download_result server inst wheel empty_world p w' H).
Defined.

(** C8: a run of [install] either fails in [find] or [download], before
    any child process, or runs exactly one child process, as the last
    effect: [<environment>/bin/python -c "import pip; pip.main(['install',
    '<path>'])"] with [PYTHONPATH=<path>], where [<path>] is the cache
    path [download] returned for the candidate [find] chose.  A nonzero
    exit status [rc] is raised as [CalledProcessError rc]. *)
Theorem install_runs_pip_once urljoin server run self w r w' :
  install urljoin server run self w = (r, w') ->
  (exists e evs, r = Err e /\ (forall rc, e <> CalledProcessError rc) /\
                 log w' = log w ++ evs /\ Forall (fun e => is_exec e = false) evs) \/
  (exists c w1 w2 evs,
     let p := cache_path self c in
     let inv := install_invocation self p in
     find urljoin server default_index w = (Ok c, w1) /\
     download server self c w1 = (Ok p, w2) /\
     inv_args inv = [join3 (environment self) "bin" "python"; "-c";
                     ("import pip; pip.main(['install', '" ++ p ++ "'])")%string] /\
     inv_env inv = [("PYTHONPATH", p)] /\
     log w' = log w ++ evs ++ [EvExec inv] /\ Forall (fun e => is_exec e = false) evs /\
     r = (if run inv =? 0 then Ok tt else Err (CalledProcessError (run inv)))).
Proof.
  rewrite install_eq.
  destruct (find urljoin server default_index w) as [[c|e] w1] eqn:Ef;
    destruct (find_world _ _ _ _ _ _ Ef) as [(evs0 & Hl0 & Hx0) Hfe].
  - destruct (download server self c w1) as [[p|e] w2] eqn:Ed;
      destruct (download_log _ _ _ _ _ _ Ed) as (evs & Hl & Hx).
    + destruct (download_ok _ _ _ _ _ _ Ed) as [-> _].
      intros H. right. exists c, w1, w2, (evs0 ++ evs).
      unfold check_call in H. inversion H; subst; clear H.
      split; [reflexivity|]. split; [exact Ed|]. split; [reflexivity|]. split; [reflexivity|].
      split; [|split; [apply Forall_app; split; assumption|reflexivity]].
      cbn [log emit]. rewrite Hl, Hl0, <- !app_assoc. reflexivity.
    + intros H; inversion H; subst; clear H. left.
      exists e, (evs0 ++ evs).
      split; [reflexivity|]. split; [exact (download_err _ _ _ _ _ _ Ed)|].
      split; [rewrite Hl, Hl0, <- app_assoc; reflexivity|]. apply Forall_app; split; assumption.
  - intros H; inversion H; subst; clear H. left.
    exists e, evs0.
    split; [reflexivity|]. split; [intros rc; exact (Hfe e rc eq_refl)|].
    split; [exact Hl0|exact Hx0].
Qed.

Lemma install_runs_pip_once_witness :
  let server := index_server spec_page in
  let run := fun _ : invocation => 1 in
  let r := install uj server run inst empty_world in
  install uj server run inst empty_world = (fst r, snd r) /\
  ((exists e evs, fst r = Err e /\ (forall rc, e <> CalledProcessError rc) /\
                  log (snd r) = log empty_world ++ evs /\ Forall (fun e => is_exec e = false) evs) \/
   (exists c w1 w2 evs,
      let p := cache_path inst c in
      let inv := install_invocation inst p in
      find uj server default_index empty_world = (Ok c, w1) /\
      download server inst c w1 = (Ok p, w2) /\
      inv_args inv = [join3 (environment inst) "bin" "python"; "-c";
                      ("import pip; pip.main(['install', '" ++ p ++ "'])")%string] /\
      inv_env inv = [("PYTHONPATH", p)] /\
      log (snd r) = log empty_world ++ evs ++ [EvExec inv] /\
      Forall (fun e => is_exec e = false) evs /\
      fst r = (if run inv =? 0 then Ok tt else Err (CalledProcessError (run inv))))).
Proof.
  intros server run r.
  assert (H : install uj server run inst empty_world = (fst r, snd r)) by (vm_compute; reflexivity).
  split; [exact H|]. exact (install_runs_pip_once uj server run inst empty_world (fst r) (snd r) H).
Defined.

End Claims.

(* ------------------------------------------------------------------ *)
(** ** Further properties of the code                                  *)
(* ------------------------------------------------------------------ *)

Module VersionFacts.
Import Py PkgVersion.

Lemma In_pbind {A B} (p : P A) (f : A -> P B) s b r :
  In (b, r) (pbind p f s) -> exists a r', In (a, r') (p s) /\ In (b, r) (f a r').
Proof.
  unfold pbind. intros H. apply in_flat_map in H as ([a r'] & H1 & H2). eauto.
Qed.

Lemma In_popt {A} (p : P A) s o r :
  In (o, r) (popt p s) -> o = None \/ exists a, o = Some a /\ In (a, r) (p s).
Proof.
  unfold popt, palt, pmap, pret. intros H. apply in_app_or in H as [H|H].
  - apply In_pbind in H as (a & r' & H1 & H2). simpl in H2.
    destruct H2 as [E|[]]. inversion E; subst. right. eauto.
  - simpl in H. destruct H as [E|[]]. inversion E; auto.
Qed.

Lemma take_while_forall (f : ascii -> bool) l : forallb f (take_while f l) = true.
Proof.
  induction l as [|x l IH]; simpl; [reflexivity|].
  destruct (f x) eqn:E; simpl; [rewrite E; exact IH|reflexivity].
Qed.

Lemma forallb_firstn {A} (f : A -> bool) k l : forallb f l = true -> forallb f (firstn k l) = true.
Proof.
  revert l; induction k as [|k IH]; intros [|x l] H; simpl; auto.
  simpl in H. apply andb_true_iff in H as [H1 H2]. rewrite H1. simpl. auto.
Qed.

Lemma digits_value_nonneg l acc :
  0 <= acc -> forallb is_digit l = true -> 0 <= fold_left (fun acc c => acc * 10 + (code c - 48)) l acc.
Proof.
  revert acc; induction l as [|x l IH]; intros acc Ha H; simpl; [exact Ha|].
  simpl in H. apply andb_true_iff in H as [Hx Hl].
  unfold is_digit in Hx. apply andb_true_iff in Hx as [Hx _]. apply Z.leb_le in Hx.
  apply IH; [lia|exact Hl].
Qed.

Lemma In_pnum s n r : In (n, r) (pnum s) -> 0 <= n.
Proof.
  unfold pnum, pmap, pret. intros H. apply In_pbind in H as (l & r' & H1 & H2).
  simpl in H2. destruct H2 as [E|[]]. inversion E; subst.
  unfold pplus in H1. apply in_map_iff in H1 as (k & E1 & _). inversion E1; subst.
  apply digits_value_nonneg; [lia|]. apply forallb_firstn, take_while_forall.
Qed.

Lemma version_pattern_epoch fuel s g r :
  In (g, r) (version_pattern fuel s) ->
  match g_epoch g with Some n => 0 <= n | None => True end.
Proof.
  unfold version_pattern. intros H.
  apply In_pbind in H as (_ & r1 & _ & H).
  apply In_pbind in H as (e & r2 & He & H).
  assert (Ee : match e with Some n => 0 <= n | None => True end).
  { apply In_popt in He as [->|(n & -> & Hn)]; [exact I|].
    apply In_pbind in Hn as (m & r3 & Hm & Hn). apply In_pnum in Hm.
    apply In_pbind in Hn as (u & r4 & _ & Hn). simpl in Hn.
    destruct Hn as [E|[]]. inversion E; subst; exact Hm. }
  repeat (apply In_pbind in H as (? & ? & _ & H)).
  simpl in H. destruct H as [E|[]]. inversion E; subst. exact Ee.
Qed.

(** A version string [parse] accepts under PEP 440 has a nonnegative epoch. *)
Lemma match_version_epoch s g :
  match_version s = Some g -> match g_epoch g with Some n => 0 <= n | None => True end.
Proof.
  unfold match_version.
  destruct (List.filter _ _) as [|[g' r'] t] eqn:E; [discriminate|].
  intros H; inversion H; subst g'.
  assert (Hin : In (g, r') (List.filter (fun '(_, rest) => match rest with [] => true | _ => false end)
                  (version_pattern (length (map lower_char (strip (chars s))))
                                   (map lower_char (strip (chars s)))))) by (rewrite E; left; reflexivity).
  apply filter_In in Hin as [Hin _]. eapply version_pattern_epoch; eauto.
Qed.

Lemma legacy_below s e rel pre post dev loc :
  0 <= e -> vlt (LegacyVersion s) (Version e rel pre post dev loc) = true.
Proof.
  intros He. unfold vlt, version_key. cbn [app klt].
  apply orb_true_iff. left. apply Z.ltb_lt. lia.
Qed.

Lemma legacy_not_above s e rel pre post dev loc :
  0 <= e -> vlt (Version e rel pre post dev loc) (LegacyVersion s) = false.
Proof.
  intros He. unfold vlt, version_key. cbn [app klt].
  apply orb_false_iff. split; [apply Z.ltb_ge; lia|].
  apply andb_false_iff. left. apply Z.eqb_neq. lia.
Qed.

(** [parse] gives a [Version] with a nonnegative epoch to every string
    matching the PEP 440 grammar. *)
Lemma parse_pep440 s :
  match_version s <> None ->
  exists e rel pre post dev loc, parse s = Version e rel pre post dev loc /\ 0 <= e.
Proof.
  intros H. unfold parse. destruct (match_version s) as [g|] eqn:E; [|contradiction].
  apply match_version_epoch in E. unfold version_of_groups, opt0.
  do 6 eexists. split; [reflexivity|]. destruct (g_epoch g); [exact E|lia].
Qed.

End VersionFacts.

Module ExtraFacts.
Import Py Installer Helpers FindFacts ExtractorFacts DownloadFacts InstallFacts.

(** A candidate returned by [find] is [select] of the extracted links. *)
Lemma find_ok_inv urljoin server idx w c w' :
  find urljoin server idx w = (Ok c, w') ->
  exists simple links,
    urljoin idx (Some "pip/") = Some simple /\
    extract_links urljoin simple (text_tags (server simple)) = Ok links /\
    select links = Ok c.
Proof.
  rewrite find_eq. destruct (urljoin idx (Some "pip/")) as [simple|] eqn:Eu; intros H; [|inversion H].
  cbv zeta in H. destruct (is_http_error _); [inversion H|].
  destruct (extract_links _ _ _) as [links|e] eqn:Ex; inversion H; subst; clear H.
  exists simple, links. auto.
Qed.

Lemma collect_filter links : collect links = collect (List.filter is_wheel_link links).
Proof.
  induction links as [|l rest IH]; [reflexivity|].
  simpl List.filter. rewrite collect_cons.
  destruct (is_wheel_link l) eqn:Ew; cbn [negb]; [|exact IH].
  rewrite collect_cons, Ew. cbn [negb]. rewrite IH. reflexivity.
Qed.

Lemma take_while_all (f : ascii -> bool) l : Forall (fun x => f x = true) (take_while f l).
Proof.
  induction l as [|x l IH]; simpl; [constructor|].
  destruct (f x) eqn:E; constructor; auto.
Qed.

(** A basename has no slash. *)
Lemma basename_no_slash p : Forall (fun x => x <> slash) (chars (basename p)).
Proof.
  unfold basename. rewrite PathFacts.chars_str.
  apply Forall_rev. eapply List.Forall_impl; [|apply take_while_all].
  intros x Hx E. subst. discriminate Hx.
Qed.

Lemma makedirs_world d w w' :
  makedirs d w = (Ok tt, w') ->
  files w' = files w /\
  dirs w' = {[d]} ∪ list_to_set (ancestors (String.length d) d) ∪ dirs w /\
  sessions w' = sessions w /\ next_sid w' = next_sid w.
Proof.
  unfold makedirs.
  destruct (is_file w d || is_dir w d); [discriminate|].
  destruct (existsb _ _); [discriminate|].
  intros H; inversion H; subst; clear H. auto.
Qed.

Lemma write_file_world p data w w' :
  write_file p data w = (Ok tt, w') ->
  files w' = <[p := data]> (files w) /\ dirs w' = dirs w /\
  sessions w' = sessions w /\ next_sid w' = next_sid w.
Proof.
  unfold write_file.
  destruct (is_dir w p); [discriminate|].
  destruct (String.eqb (dirname p) "" || is_dir w (dirname p)).
  - intros H; inversion H; subst; auto.
  - destruct (is_file w (dirname p)); discriminate.
Qed.

(** The steps [download] takes on a missing cache path, by outcome. *)
Lemma download_miss_cases server self c w r w' :
  (is_file w (cache_path self c) || is_dir w (cache_path self c)) = false ->
  download server self c w = (r, w') ->
  let p := cache_path self c in
  let w1 := emit w (EvGet (c_url c)) in
  w' = w1 \/
  (exists w2, makedirs (dirname p) w1 = (Ok tt, w2) /\ w' = w2) \/
  (exists w2, (w2 = w1 \/ makedirs (dirname p) w1 = (Ok tt, w2)) /\
              write_file p (content (server (c_url c))) w2 = (Ok tt, w')).
Proof.
  intros Hm H p w1. rewrite (download_miss server self c w Hm) in H. cbv zeta in H.
  fold p w1 in H.
  destruct (is_http_error _); [inversion H; auto|].
  destruct (is_file w1 (dirname p) || is_dir w1 (dirname p)).
  - destruct (write_file p _ w1) as [[[]|e] w3] eqn:Ew; inversion H; subst.
    + right; right. exists w1. auto.
    + apply write_file_err in Ew as [-> _]. auto.
  - destruct (makedirs (dirname p) w1) as [[[]|e] w2] eqn:Em.
    + destruct (write_file p _ w2) as [[[]|e] w3] eqn:Ew; inversion H; subst.
      * right; right. exists w2. auto.
      * apply write_file_err in Ew as [-> _]. right; left. exists w2. auto.
    + inversion H; subst. apply makedirs_err in Em as [-> _]. auto.
Qed.

(** After a [with PipInstaller(...)] block the installer's session is closed. *)
Lemma with_installer_session_closed {A} env cache (body : PipInstaller -> M A) w :
  sessions (snd (with_installer env cache body w)) !! next_sid w = Some false.
Proof.
  unfold with_installer, bind, enter, ret, exit, close, new_installer. cbv beta iota zeta.
  destruct (body _ _) as [r1 w1]. apply lookup_insert_eq.
Qed.

End ExtraFacts.

Module Extras.
Import Py PkgVersion Installer Helpers Examples OrderFacts SortFacts FindFacts
       ExtractorFacts PathFacts DownloadFacts InstallFacts VersionFacts ExtraFacts.

(** Links whose file name does not end in [".whl"] never change what
    [find] selects or raises. *)
Theorem select_ignores_non_wheels links :
  select links = select (List.filter is_wheel_link links).
Proof. unfold select. rewrite collect_filter. reflexivity. Qed.

(** When [find] returns a candidate, that candidate is the first one of
    maximal version among the page's wheel links in link order: every
    earlier one has a smaller version, no later one a greater version. *)
Theorem find_selects_first_max urljoin server idx w c w' :
  find urljoin server idx w = (Ok c, w') ->
  exists simple links,
    urljoin idx (Some "pip/") = Some simple /\
    extract_links urljoin simple (text_tags (server simple)) = Ok links /\
    exists pre post, map candidate_of (List.filter is_wheel_link links) = pre ++ c :: post /\
      Forall (fun z => vlt (c_version z) (c_version c) = true) pre /\
      Forall (fun z => vlt (c_version c) (c_version z) = false) post.
Proof.
  intros H. destruct (find_ok_inv _ _ _ _ _ _ H) as (simple & links & Hu & Hx & Hs).
  exists simple, links. split; [exact Hu|]. split; [exact Hx|]. apply select_max. exact Hs.
Qed.

Lemma find_selects_first_max_witness :
  let server := index_server legacy_pair_page in
  let c := match fst (find uj server default_index empty_world) with
           | Ok c => c | Err _ => wheel end in
  let w' := snd (find uj server default_index empty_world) in
  (find uj server default_index empty_world = (Ok c, w') /\
   c_filename c = "pip-x10-py3-none-any.whl") /\
  exists simple links,
    uj default_index (Some "pip/") = Some simple /\
    extract_links uj simple (text_tags (server simple)) = Ok links /\
    exists pre post, map candidate_of (List.filter is_wheel_link links) = pre ++ c :: post /\
      Forall (fun z => vlt (c_version z) (c_version c) = true) pre /\
      Forall (fun z => vlt (c_version c) (c_version z) = false) post.
Proof.
  intros server c w'.
  assert (H : find uj server default_index empty_world = (Ok c, w')) by (vm_compute; reflexivity).
  assert (Hf : c_filename c = "pip-x10-py3-none-any.whl") by (vm_compute; reflexivity).
  split; [split; assumption|]. exact (find_selects_first_max uj server default_index empty_world c w' H).
Defined.

(** When some wheel link carries a PEP 440 version, [find] never returns
    a candidate with a [LegacyVersion]: those sort below every PEP 440
    version. *)
Theorem find_prefers_pep440 urljoin server idx w c w' :
  find urljoin server idx w = (Ok c, w') ->
  (exists simple links l,
     urljoin idx (Some "pip/") = Some simple /\
     extract_links urljoin simple (text_tags (server simple)) = Ok links /\
     In l links /\ is_wheel_link l = true /\ match_version (wheel_token l) <> None) ->
  forall s, c_version c <> LegacyVersion s.
Proof.
  intros H (simple & links & l & Hu & Hx & Hl & Hw & Hv) s Hc.
  destruct (find_ok_inv _ _ _ _ _ _ H) as (simple0 & links0 & Hu0 & Hx0 & Hs).
  rewrite Hu in Hu0. inversion Hu0; subst simple0.
  rewrite Hx in Hx0. inversion Hx0; subst links0.
  destruct (select_max _ _ Hs) as (pre & post & E & Hpre & Hpost).
  assert (Hin : In (candidate_of l) (pre ++ c :: post))
    by (rewrite <- E; apply in_map, filter_In; auto).
  destruct (parse_pep440 _ Hv) as (e & rel & pr & po & dv & lc & Hp & He).
  assert (Hcv : c_version (candidate_of l) = Version e rel pr po dv lc) by exact Hp.
  apply in_app_or in Hin as [Hin|[Hin|Hin]].
  - rewrite List.Forall_forall in Hpre. specialize (Hpre _ Hin).
    rewrite Hcv, Hc, legacy_not_above in Hpre by exact He. discriminate.
  - rewrite Hin, Hcv in Hc. discriminate.
  - rewrite List.Forall_forall in Hpost. specialize (Hpost _ Hin).
    rewrite Hcv, Hc, legacy_below in Hpost by exact He. discriminate.
Qed.

Lemma find_prefers_pep440_witness :
  let server := index_server mixed_page in
  let c := match fst (find uj server default_index empty_world) with
           | Ok c => c | Err _ => wheel end in
  let w' := snd (find uj server default_index empty_world) in
  find uj server default_index empty_world = (Ok c, w') /\
  (exists simple links l,
     uj default_index (Some "pip/") = Some simple /\
     extract_links uj simple (text_tags (server simple)) = Ok links /\
     In l links /\ is_wheel_link l = true /\ match_version (wheel_token l) <> None) /\
  forall s, c_version c <> LegacyVersion s.
Proof.
  intros server c w'.
  assert (H : find uj server default_index empty_world = (Ok c, w')) by (vm_compute; reflexivity).
  assert (Hl : exists simple links l,
     uj default_index (Some "pip/") = Some simple /\
     extract_links uj simple (text_tags (server simple)) = Ok links /\
     In l links /\ is_wheel_link l = true /\ match_version (wheel_token l) <> None).
  { exists simple_url, (map (fun f => simple_url ++ f)%string mixed_page),
           (simple_url ++ "pip-1.0-py3-none-any.whl")%string.
    split; [vm_compute; reflexivity|]. split; [vm_compute; reflexivity|].
    split; [simpl; auto|]. split; [vm_compute; reflexivity|]. vm_compute; discriminate. }
  split; [exact H|]. split; [exact Hl|].
  exact (find_prefers_pep440 uj server default_index empty_world c w' H Hl).
Defined.

(** The candidate [find] returns comes from one of the page's links: its
    file name is the basename of the link's URL path, ends in [".whl"]
    and has no slash, and its version is [parse] of the second
    hyphen-delimited token. *)
Theorem find_candidate_from_link urljoin server idx w c w' :
  find urljoin server idx w = (Ok c, w') ->
  exists simple links,
    urljoin idx (Some "pip/") = Some simple /\
    extract_links urljoin simple (text_tags (server simple)) = Ok links /\
    In (c_url c) links /\
    c_filename c = basename (url_path (c_url c)) /\
    endswith (c_filename c) ".whl" = true /\
    Forall (fun x => x <> slash) (chars (c_filename c)) /\
    c_version c = parse (nth 1 (split (c_filename c) "-") "").
Proof.
  intros H. destruct (find_ok_inv _ _ _ _ _ _ H) as (simple & links & Hu & Hx & Hs).
  destruct (select_max _ _ Hs) as (pre & post & E & _).
  exists simple, links. split; [exact Hu|]. split; [exact Hx|].
  assert (Hin : In c (map candidate_of (List.filter is_wheel_link links)))
    by (rewrite E; apply in_or_app; right; left; reflexivity).
  apply in_map_iff in Hin as (l & <- & Hl). apply filter_In in Hl as [Hl Hw].
  split; [exact Hl|]. split; [reflexivity|]. split; [exact Hw|].
  split; [apply basename_no_slash|reflexivity].
Qed.

Lemma find_candidate_from_link_witness :
  let server := index_server spec_page in
  let c := match fst (find uj server default_index empty_world) with
           | Ok c => c | Err _ => wheel end in
  let w' := snd (find uj server default_index empty_world) in
  find uj server default_index empty_world = (Ok c, w') /\
  exists simple links,
    uj default_index (Some "pip/") = Some simple /\
    extract_links uj simple (text_tags (server simple)) = Ok links /\
    In (c_url c) links /\
    c_filename c = basename (url_path (c_url c)) /\
    endswith (c_filename c) ".whl" = true /\
    Forall (fun x => x <> slash) (chars (c_filename c)) /\
    c_version c = parse (nth 1 (split (c_filename c) "-") "").
Proof.
  intros server c w'.
  assert (H : find uj server default_index empty_world = (Ok c, w')) by (vm_compute; reflexivity).
  split; [exact H|]. exact (find_candidate_from_link uj server default_index empty_world c w' H).
Defined.


(** Feeding two documents one after the other: the extractor raises the
    first document's error, else the second's, else returns the first
    document's links followed by the second's. *)
Theorem extract_links_app urljoin base (d1 d2 : list starttag) :
  extract_links urljoin base (d1 ++ d2) =
  match extract_links urljoin base d1 with
  | Err e => Err e
  | Ok l1 => match extract_links urljoin base d2 with Ok l2 => Ok (l1 ++ l2) | Err e => Err e end
  end.
Proof. rewrite !extract_links_eq, flat_map_app. apply resolve_all_app. Qed.

(** The effects of [download], in order, are one of: none (the cache path
    exists); the GET of the candidate's URL alone (HTTP error, or
    [makedirs] or the write failing before any change); the GET and the
    [makedirs] of the key directory (the write failing); the GET and the
    write; or the GET, the [makedirs] and the write. *)
Theorem download_effects server self c w r w' :
  download server self c w = (r, w') ->
  let p := cache_path self c in
  exists evs, log w' = log w ++ evs /\
    In evs [[]; [EvGet (c_url c)]; [EvGet (c_url c); EvMakedirs (dirname p)];
            [EvGet (c_url c); EvWrite p];
            [EvGet (c_url c); EvMakedirs (dirname p); EvWrite p]].
Proof.
  intros H p.
  destruct (is_file w p || is_dir w p) eqn:Ex.
  - rewrite (download_hit server self c w Ex) in H. inversion H; subst.
    exists []. rewrite app_nil_r. split; [reflexivity|]. left; reflexivity.
  - destruct (download_miss_cases server self c w r w' Ex H)
      as [->|[(w2 & Hm & ->)|(w2 & [->|Hm] & Hw)]].
    + eexists. split; [reflexivity|]. simpl; auto.
    + apply makedirs_ok in Hm as (_ & Hl & _). rewrite Hl.
      eexists. split; [rewrite log_emit, <- app_assoc; reflexivity|]. simpl; auto.
    + apply write_file_ok in Hw as (_ & Hl & _). rewrite Hl.
      eexists. split; [rewrite log_emit, <- app_assoc; reflexivity|]. simpl; auto 6.
    + apply write_file_ok in Hw as (_ & Hl & _). apply makedirs_ok in Hm as (_ & Hl2 & _).
      rewrite Hl, Hl2.
      eexists. split; [rewrite log_emit, <- !app_assoc; reflexivity|]. simpl; auto 6.
Qed.

Lemma download_effects_witness :
  let server := index_server spec_page in
  let r := download server inst wheel empty_world in
  let p := cache_path inst wheel in
  download server inst wheel empty_world = (fst r, snd r) /\
  exists evs, log (snd r) = log empty_world ++ evs /\
    In evs [[]; [EvGet (c_url wheel)]; [EvGet (c_url wheel); EvMakedirs (dirname p)];
            [EvGet (c_url wheel); EvWrite p];
            [EvGet (c_url wheel); EvMakedirs (dirname p); EvWrite p]].
Proof.
  intros server r p.
  assert (H : download server inst wheel empty_world = (fst r, snd r)) by (vm_compute; reflexivity).
  split; [exact H|]. exact (download_effects server inst wheel empty_world (fst r) (snd r) H).
Defined.

(** [download] writes no file but the cache path, removes no directory,
    creates only the key directory and its missing ancestors, and leaves
    the sessions alone. *)
Theorem download_frame server self c w r w' :
  download server self c w = (r, w') ->
  let p := cache_path self c in
  (forall q, q <> p -> files w' !! q = files w !! q) /\
  dirs w ⊆ dirs w' /\
  (forall d, d ∈ dirs w' -> d ∉ dirs w ->
     d = dirname p \/ In d (ancestors (String.length (dirname p)) (dirname p))) /\
  sessions w' = sessions w.
Proof.
  intros H p.
  destruct (is_file w p || is_dir w p) eqn:Ex.
  - rewrite (download_hit server self c w Ex) in H. inversion H; subst.
    split; [auto|]. split; [set_solver|]. split; [intros d Hd Hn; contradiction|reflexivity].
  - destruct (download_miss_cases server self c w r w' Ex H)
      as [->|[(w2 & Hm & ->)|(w2 & [->|Hm] & Hw)]].
    + split; [auto|]. split; [cbn; set_solver|]. split; [intros d Hd Hn; contradiction|reflexivity].
    + apply makedirs_world in Hm as (Hf & Hd & Hs & _).
      split; [intros q _; rewrite Hf; reflexivity|].
      split; [rewrite Hd; cbn; set_solver|].
      split; [|exact Hs].
      intros d Hd1 Hd2. rewrite Hd in Hd1. cbn in Hd2.
      apply elem_of_union in Hd1 as [Hd1|Hd1]; [|contradiction].
      apply elem_of_union in Hd1 as [Hd1|Hd1].
      * left. apply elem_of_singleton in Hd1. exact Hd1.
      * right. apply elem_of_list_to_set, list_elem_of_In in Hd1. exact Hd1.
    + apply write_file_world in Hw as (Hf & Hd & Hs & _).
      split; [intros q Hq; rewrite Hf, lookup_insert_ne by (intros E; apply Hq; symmetry; exact E); reflexivity|].
      split; [rewrite Hd; cbn; set_solver|].
      split; [intros d Hd1 Hd2; rewrite Hd in Hd1; contradiction|exact Hs].
    + apply write_file_world in Hw as (Hf & Hd & Hs & _).
      apply makedirs_world in Hm as (Hf2 & Hd2 & Hs2 & _).
      split; [intros q Hq; rewrite Hf, lookup_insert_ne, Hf2 by (intros E; apply Hq; symmetry; exact E); reflexivity|].
      split; [rewrite Hd, Hd2; cbn; set_solver|].
      split; [|rewrite Hs, Hs2; reflexivity].
      intros d Hd1 Hd3. rewrite Hd, Hd2 in Hd1. cbn in Hd3.
      apply elem_of_union in Hd1 as [Hd1|Hd1]; [|contradiction].
      apply elem_of_union in Hd1 as [Hd1|Hd1].
      * left. apply elem_of_singleton in Hd1. exact Hd1.
      * right. apply elem_of_list_to_set, list_elem_of_In in Hd1. exact Hd1.
Qed.

Lemma download_frame_witness :
  let server := index_server spec_page in
  let r := download server inst wheel empty_world in
  let p := cache_path inst wheel in
  download server inst wheel empty_world = (fst r, snd r) /\
  (forall q, q <> p -> files (snd r) !! q = files empty_world !! q) /\
  dirs empty_world ⊆ dirs (snd r) /\
  (forall d, d ∈ dirs (snd r) -> d ∉ dirs empty_world ->
     d = dirname p \/ In d (ancestors (String.length (dirname p)) (dirname p))) /\
  sessions (snd r) = sessions empty_world.
Proof.
  intros server r p.
  assert (H : download server inst wheel empty_world = (fst r, snd r)) by (vm_compute; reflexivity).
  split; [exact H|]. exact (download_frame server inst wheel empty_world (fst r) (snd r) H).
Defined.

(** [ctx.obj["dirs"]]: the cache is [user_cache_dir] unchanged; the
    environments live in [$HOME/.pvr/envs] with the trailing slashes of
    [$HOME] removed ([/.pvr/envs] for [HOME=/]), and in the relative path
    [~/.pvr/envs] when no home directory is known. *)
Theorem cli_dirs user_cache_dir home user_home :
  Cli.cache (Cli.cli user_cache_dir home user_home) = user_cache_dir /\
  Cli.environments (Cli.cli user_cache_dir home user_home) =
  match home with
  | Some h => (Cli.rstrip_slash h ++ "/.pvr/envs")%string
  | None => "~/.pvr/envs"
  end.
Proof.
  split; [reflexivity|]. destruct home as [h|]; [|reflexivity].
  unfold Cli.cli, Cli.expanduser. cbn -[Cli.rstrip_slash].
  destruct (Cli.rstrip_slash h); reflexivity.
Qed.

(** [create] on a name whose target path exists raises the
    [ClickException] "An environment named NAME already exists." and
    does nothing else: no environment is built and no session opened. *)
Theorem create_existing_env urljoin server run build obj name w :
  let target := join2 (Cli.environments obj) name in
  (is_file w target || is_dir w target) = true ->
  Cli.create urljoin server run build obj name w =
  (Cli.ClickException ("An environment named " ++ name ++ " already exists."), w).
Proof.
  intros target H. unfold Cli.create, Cli.cbind, Cli.clift, path_exists. fold target.
  rewrite H. reflexivity.
Qed.

Lemma create_existing_env_witness :
  let target := join2 (Cli.environments obj) "demo" in
  (is_file env_world target || is_dir env_world target) = true /\
  Cli.create uj (index_server spec_page) (fun _ => 0) mkdir_build obj "demo" env_world =
  (Cli.ClickException ("An environment named " ++ "demo" ++ " already exists."), env_world).
Proof.
  intros target.
  assert (H : (is_file env_world target || is_dir env_world target) = true) by (vm_compute; reflexivity).
  split; [exact H|].
  exact (create_existing_env uj (index_server spec_page) (fun _ => 0) mkdir_build obj "demo" env_world H).
Defined.

(** For an environments directory in normal absolute form and a name
    that is a single path component, [create] on a fresh target path
    builds the environment there first.  If the builder raises, that
    exception ends [create] before any session is opened; otherwise pip
    is installed into the target with the context's cache directory, and
    the installer's session is closed when [create] ends. *)
Theorem create_fresh_env urljoin server run build obj name w :
  normal_abs (Cli.environments obj) = true -> path_component name = true ->
  let target := join2 (Cli.environments obj) name in
  (is_file w target || is_dir w target) = false ->
  (forall e w1, build target w = (Err e, w1) ->
     Cli.create urljoin server run build obj name w = (Cli.Raised e, w1)) /\
  (forall w1, build target w = (Ok tt, w1) ->
     fst (Cli.create urljoin server run build obj name w) =
       match fst (create_install urljoin server run target (Cli.cache obj) w1) with
       | Ok a => Cli.Returned a
       | Err e => Cli.Raised e
       end /\
     sessions (snd (Cli.create urljoin server run build obj name w)) !! next_sid w1 = Some false).
Proof.
  intros _ _ target H. unfold Cli.create, Cli.cbind, Cli.clift, path_exists. fold target.
  rewrite H. split.
  - intros e w1 Hb. rewrite Hb. reflexivity.
  - intros w1 Hb. rewrite Hb.
    pose proof (with_installer_session_closed target (Cli.cache obj) (install urljoin server run) w1) as Hs.
    unfold create_install.
    destruct (with_installer target (Cli.cache obj) (install urljoin server run) w1) as [[a|e] w2];
      simpl in *; auto.
Qed.

Lemma create_fresh_env_witness :
  let server := index_server spec_page in
  let run := fun _ : invocation => 0 in
  let target := join2 (Cli.environments obj) "fresh" in
  (normal_abs (Cli.environments obj) = true /\ path_component "fresh" = true /\
   (is_file env_world target || is_dir env_world target) = false) /\
  (forall e w1, mkdir_build target env_world = (Err e, w1) ->
     Cli.create uj server run mkdir_build obj "fresh" env_world = (Cli.Raised e, w1)) /\
  (forall w1, mkdir_build target env_world = (Ok tt, w1) ->
     fst (Cli.create uj server run mkdir_build obj "fresh" env_world) =
       match fst (create_install uj server run target (Cli.cache obj) w1) with
       | Ok a => Cli.Returned a
       | Err e => Cli.Raised e
       end /\
     sessions (snd (Cli.create uj server run mkdir_build obj "fresh" env_world)) !! next_sid w1
       = Some false).
Proof.
  intros server run target.
  assert (H0 : normal_abs (Cli.environments obj) = true) by (vm_compute; reflexivity).
  assert (H1 : path_component "fresh" = true) by (vm_compute; reflexivity).
  assert (H : (is_file env_world target || is_dir env_world target) = false) by (vm_compute; reflexivity).
  split; [auto|].
  exact (create_fresh_env uj server run mkdir_build obj "fresh" env_world H0 H1 H).
Defined.

(** For an environments directory in normal absolute form and a name
    that is a single path component, [exec_] on a name whose target path
    does not exist raises the [ClickException] "No environment named
    NAME" and runs nothing. *)
Theorem exec_missing_env execvpe environ obj name command w :
  normal_abs (Cli.environments obj) = true -> path_component name = true ->
  let target := join2 (Cli.environments obj) name in
  (is_file w target || is_dir w target) = false ->
  Cli.exec_ execvpe environ obj name command w =
  (Cli.ClickException ("No environment named " ++ name), w).
Proof.
  intros _ _ target H. unfold Cli.exec_, Cli.cbind, Cli.clift, path_exists. fold target.
  rewrite H. reflexivity.
Qed.

Lemma exec_missing_env_witness :
  let target := join2 (Cli.environments obj) "nope" in
  (normal_abs (Cli.environments obj) = true /\ path_component "nope" = true /\
   (is_file env_world target || is_dir env_world target) = false) /\
  Cli.exec_ execvpe_bin environ obj "nope" ["python"] env_world =
  (Cli.ClickException ("No environment named " ++ "nope"), env_world).
Proof.
  intros target.
  assert (H0 : normal_abs (Cli.environments obj) = true) by (vm_compute; reflexivity).
  assert (H1 : path_component "nope" = true) by (vm_compute; reflexivity).
  assert (H : (is_file env_world target || is_dir env_world target) = false) by (vm_compute; reflexivity).
  split; [auto|]. exact (exec_missing_env execvpe_bin environ obj "nope" ["python"] env_world H0 H1 H).
Defined.

(** [exec_] on an existing environment computes the caller's environment
    in which only [PATH] changes, to [<target>/bin:] followed by the old
    [PATH] (or [os.defpath] when unset), and hands [command[0]], the
    arguments [command] and that environment to [os.execvpe]: the process
    is replaced, or the exception [os.execvpe] raises (such as
    [FileNotFoundError] for a command on no directory of that [PATH])
    propagates.  An empty command raises [IndexError]. *)
Theorem exec_env execvpe environ obj name command w :
  let target := join2 (Cli.environments obj) name in
  (is_file w target || is_dir w target) = true ->
  (command = [] -> Cli.exec_ execvpe environ obj name command w = (Cli.Raised IndexError, w)) /\
  (forall c0 rest, command = c0 :: rest ->
     exists env,
       Cli.exec_ execvpe environ obj name command w =
         (match execvpe c0 command env with
          | Some e => Cli.Raised e
          | None => Cli.Exec c0 command env
          end, w) /\
       env !! "PATH" = Some (join2 target "bin" ++ ":" ++ default "/bin:/usr/bin" (environ !! "PATH"))%string /\
       forall k, k <> "PATH" -> env !! k = environ !! k).
Proof.
  intros target H. unfold Cli.exec_, Cli.cbind, Cli.clift, path_exists. fold target.
  cbv beta iota zeta. rewrite H. cbn [negb]. split.
  - intros ->. reflexivity.
  - intros c0 rest ->. eexists. split.
    + match goal with |- _ = (match execvpe _ _ ?env with _ => _ end, _) =>
        unify env (<["PATH":=(join2 target "bin" ++ Cli.pathsep ++ default Cli.defpath (environ !! "PATH"))%string]> environ)
      end.
      destruct (execvpe _ _ _); reflexivity.
    + split; [apply lookup_insert_eq|].
      intros k Hk. apply lookup_insert_ne. congruence.
Qed.

Lemma exec_env_witness :
  let target := join2 (Cli.environments obj) "demo" in
  let command := ["ls"; "-l"] in
  (is_file env_world target || is_dir env_world target) = true /\
  (command = [] ->
   Cli.exec_ execvpe_bin environ obj "demo" command env_world = (Cli.Raised IndexError, env_world)) /\
  (forall c0 rest, command = c0 :: rest ->
     exists env,
       Cli.exec_ execvpe_bin environ obj "demo" command env_world =
         (match execvpe_bin c0 command env with
          | Some e => Cli.Raised e
          | None => Cli.Exec c0 command env
          end, env_world) /\
       env !! "PATH" = Some (join2 target "bin" ++ ":" ++ default "/bin:/usr/bin" (environ !! "PATH"))%string /\
       forall k, k <> "PATH" -> env !! k = environ !! k).
Proof.
  intros target command.
  assert (H : (is_file env_world target || is_dir env_world target) = true) by (vm_compute; reflexivity).
  split; [exact H|]. exact (exec_env execvpe_bin environ obj "demo" command env_world H).
Defined.

(** [remove] on an existing environment directory deletes every file and
    directory at or below the target path and keeps everything else. *)
Theorem remove_existing_env obj name w :
  let target := join2 (Cli.environments obj) name in
  is_dir w target = true ->
  let w' := snd (Cli.remove obj name w) in
  fst (Cli.remove obj name w) = Cli.Returned tt /\
  (forall q, Cli.under target q = true -> files w' !! q = None /\ q ∉ dirs w') /\
  (forall q, Cli.under target q = false -> files w' !! q = files w !! q /\ (q ∈ dirs w' <-> q ∈ dirs w)).
Proof.
  intros target H w'. subst w'. unfold Cli.remove, Cli.clift, Cli.rmtree. fold target.
  rewrite H. cbn [fst snd files dirs]. split; [reflexivity|]. split.
  - intros q Hq. split.
    + apply map_lookup_filter_None. right. intros x _. cbn. congruence.
    + rewrite elem_of_filter. intros [Hn _]. congruence.
  - intros q Hq. split.
    + rewrite map_lookup_filter. destruct (files w !! q); [|reflexivity]. cbn.
      rewrite option_guard_True by exact Hq. reflexivity.
    + rewrite elem_of_filter. tauto.
Qed.

Lemma remove_existing_env_witness :
  let target := join2 (Cli.environments obj) "demo" in
  let w' := snd (Cli.remove obj "demo" env_world) in
  is_dir env_world target = true /\
  fst (Cli.remove obj "demo" env_world) = Cli.Returned tt /\
  (forall q, Cli.under target q = true -> files w' !! q = None /\ q ∉ dirs w') /\
  (forall q, Cli.under target q = false ->
     files w' !! q = files env_world !! q /\ (q ∈ dirs w' <-> q ∈ dirs env_world)).
Proof.
  intros target w'.
  assert (H : is_dir env_world target = true) by (vm_compute; reflexivity).
  split; [exact H|]. exact (remove_existing_env obj "demo" env_world H).
Defined.

(** For an environments directory in normal absolute form that exists
    as a directory, and a name that is a single path component, [remove]
    on a target path that is not a directory changes nothing and raises
    [NotADirectoryError] for a regular file, [FileNotFoundError] for a
    missing path. *)
Theorem remove_not_a_dir obj name w :
  normal_abs (Cli.environments obj) = true -> path_component name = true ->
  is_dir w (Cli.environments obj) = true ->
  let target := join2 (Cli.environments obj) name in
  is_dir w target = false ->
  Cli.remove obj name w =
  (Cli.Raised (if is_file w target then NotADirectoryError else FileNotFoundError), w).
Proof.
  intros _ _ _ target H. unfold Cli.remove, Cli.clift, Cli.rmtree. fold target.
  rewrite H. destruct (is_file w target); reflexivity.
Qed.

Lemma remove_not_a_dir_witness :
  let target := join2 (Cli.environments obj) "nope" in
  (normal_abs (Cli.environments obj) = true /\ path_component "nope" = true /\
   is_dir env_world (Cli.environments obj) = true /\ is_dir env_world target = false) /\
  Cli.remove obj "nope" env_world =
  (Cli.Raised (if is_file env_world target then NotADirectoryError else FileNotFoundError), env_world).
Proof.
  intros target.
  assert (H0 : normal_abs (Cli.environments obj) = true) by (vm_compute; reflexivity).
  assert (H1 : path_component "nope" = true) by (vm_compute; reflexivity).
  assert (H2 : is_dir env_world (Cli.environments obj) = true) by (vm_compute; reflexivity).
  assert (H : is_dir env_world target = false) by (vm_compute; reflexivity).
  split; [auto|]. exact (remove_not_a_dir obj "nope" env_world H0 H1 H2 H).
Defined.

(** An absolute name is not confined to the environments directory:
    [remove] then deletes the tree at the name itself, whatever the
    environments directory is. *)
Theorem remove_absolute_name obj name w :
  startswith name "/" = true ->
  Cli.remove obj name w = Cli.clift (Cli.rmtree name) w.
Proof. intros H. unfold Cli.remove, join2. rewrite H. reflexivity. Qed.

Lemma remove_absolute_name_witness :
  startswith "/home/u/.pvr/envs/other" "/" = true /\
  Cli.remove obj "/home/u/.pvr/envs/other" env_world =
  Cli.clift (Cli.rmtree "/home/u/.pvr/envs/other") env_world.
Proof.
  assert (H : startswith "/home/u/.pvr/envs/other" "/" = true) by (vm_compute; reflexivity).
  split; [exact H|]. exact (remove_absolute_name obj "/home/u/.pvr/envs/other" env_world H).
Defined.

End Extras.
